(** * Page-builder parser and binding resolver

    A shallow embedding of [src/page-builder/parser.ts] (validation, parsing,
    binding collection) and of [resolveBinding] from the page renderer.

    TypeScript types are erased at run time and the validator takes [unknown],
    so every function is modelled over run-time JavaScript values: JSON-shaped
    data plus [undefined].  Property reads are partial, as in JavaScript:
    reading a property of [null] or [undefined] throws a TypeError, and so does
    calling [.map] or [.forEach] on anything but an array.  The values are
    data: they hold no functions and no getters.  The parser reads fixed
    keys, none of which names a member of a built-in prototype, so for them
    the own property is the whole read.
    [resolveBinding] reads keys that its caller chooses: there the prototype
    chain of plain objects and arrays is followed, through both prototype
    objects and up to their methods.

    The synchronous part of the renderer is embedded as well: the component
    registry, passed explicitly as the entries of its [Map] in insertion
    order, [createDataContext], and [renderComponent] / [renderPage] over an
    abstract type of components, with the arguments of [h] as the rendered
    node. *)

From stdpp Require Import gmap strings list fin_maps pretty.
From Stdlib Require Import ZArith.

Local Open Scope string_scope.
Local Open Scope list_scope.

(** ** JavaScript values *)

(** JSON-shaped values plus [undefined].  A number is carried as an integer:
    the code only ever tests numbers for truthiness and for their [typeof].
    An object is its list of own enumerable properties in insertion order;
    a key is read at its first occurrence. *)
#[warnings="-register-all"]
Inductive JsValue : Type :=
  | JUndefined
  | JNull
  | JBool (b : bool)
  | JNum (n : Z)
  | JStr (s : string)
  | JArr (items : list JsValue)
  | JObj (fields : list (string * JsValue)).

Fixpoint depth (v : JsValue) : nat :=
  match v with
  | JArr items => S (foldr (λ x acc, depth x `max` acc) 0 items)
  | JObj fields => S (foldr (λ kv acc, depth kv.2 `max` acc) 0 fields)
  | _ => 0
  end.

Definition typeof (v : JsValue) : string :=
  match v with
  | JUndefined => "undefined"
  | JNull => "object"
  | JBool _ => "boolean"
  | JNum _ => "number"
  | JStr _ => "string"
  | JArr _ | JObj _ => "object"
  end.

(** ToBoolean. *)
Definition truthy (v : JsValue) : bool :=
  match v with
  | JUndefined | JNull => false
  | JBool b => b
  | JNum n => negb (n =? 0)%Z
  | JStr s => negb (s =? "")
  | JArr _ | JObj _ => true
  end.

(** [v === lit] for a primitive literal [lit] ([undefined], [false],
    ['static'], ...): no object is ever strictly equal to a primitive. *)
Definition strict_eq (v lit : JsValue) : bool :=
  match v, lit with
  | JUndefined, JUndefined => true
  | JNull, JNull => true
  | JBool a, JBool b => bool_decide (a = b)
  | JNum a, JNum b => (a =? b)%Z
  | JStr a, JStr b => a =? b
  | _, _ => false
  end.

Definition isArray (v : JsValue) : bool :=
  match v with JArr _ => true | _ => false end.

Definition digit_of (c : Ascii.ascii) : option N :=
  let n := Ascii.N_of_ascii c in
  if (48 <=? n)%N && (n <=? 57)%N then Some (n - 48)%N else None.

Fixpoint parse_digits (s : string) (acc : N) : option N :=
  match s with
  | EmptyString => Some acc
  | String c rest => d ← digit_of c; parse_digits rest (10 * acc + d)%N
  end.

(** The array index below [len] that a property key denotes, if any: the key
    must be the canonical decimal numeral of the index. *)
Definition array_index (key : string) (len : nat) : option nat :=
  n ← parse_digits key 0;
  if bool_decide (pretty n = key) && (n <? N.of_nat len)%N
  then Some (N.to_nat n) else None.

Definition char_at (s : string) (i : nat) : option JsValue :=
  match String.get i s with
  | Some c => Some (JStr (String c EmptyString))
  | None => None
  end.

Fixpoint own_field (fields : list (string * JsValue)) (key : string) : option JsValue :=
  match fields with
  | [] => None
  | (k, v) :: rest => if k =? key then Some v else own_field rest key
  end.

(** The own property [key] of a value that is neither [null] nor
    [undefined]; [None] when there is no such property. *)
Definition own_property (v : JsValue) (key : string) : option JsValue :=
  match v with
  | JObj fields => own_field fields key
  | JArr items =>
      if key =? "length" then Some (JNum (Z.of_nat (length items)))
      else array_index key (length items) ≫= λ i, items !! i
  | JStr s =>
      if key =? "length" then Some (JNum (Z.of_nat (String.length s)))
      else array_index key (String.length s) ≫= char_at s
  | _ => None
  end.

(** ** Validation errors and exceptions *)

Record ValidationError := mkValidationError {
  ve_path : string;
  ve_message : string;
  ve_code : string
}.

Record ValidationResult := mkValidationResult {
  vr_valid : bool;
  vr_errors : list ValidationError
}.

(** [ParseError] carries [message], [path] and the [errors] entry of its
    [details]. *)
Inductive exn : Type :=
  | TypeError
  | ParseError (message path : string) (details : list ValidationError).

(** The outcome of running a piece of code: a value, a thrown exception, or
    [OutOfModel] when the run leaves the modelled fragment (a [Map] key that
    is not a string, or a recursion deeper than the bound it was given). *)
Inductive Outcome (A : Type) : Type :=
  | Ok (a : A)
  | Throw (e : exn)
  | OutOfModel.
Arguments Ok {A} a.
Arguments Throw {A} e.
Arguments OutOfModel {A}.

#[global] Instance Outcome_ret : MRet Outcome := λ A a, Ok a.
#[global] Instance Outcome_bind : MBind Outcome := λ A B f m,
  match m with
  | Ok a => f a
  | Throw e => Throw e
  | OutOfModel => OutOfModel
  end.
#[global] Instance Outcome_fmap : FMap Outcome := λ A B f m,
  match m with
  | Ok a => Ok (f a)
  | Throw e => Throw e
  | OutOfModel => OutOfModel
  end.

(** [v[key]]. *)
Definition get (v : JsValue) (key : string) : Outcome JsValue :=
  match v with
  | JUndefined | JNull => Throw TypeError
  | _ => Ok (default JUndefined (own_property v key))
  end.

(** [key in v]: a TypeError unless [v] is an object. *)
Definition has_in (key : string) (v : JsValue) : Outcome bool :=
  match v with
  | JArr _ | JObj _ => Ok (bool_decide (is_Some (own_property v key)))
  | _ => Throw TypeError
  end.

(** The receiver of [.map(...)] or [.forEach(...)]: the elements of an array;
    on any other value the method is missing and the call is a TypeError. *)
Definition array_elements (v : JsValue) : Outcome (list JsValue) :=
  match v with
  | JArr items => Ok items
  | _ => Throw TypeError
  end.

(** [Set.prototype.has] on a set of strings. *)
Definition set_has (s : gset string) (v : JsValue) : bool :=
  match v with
  | JStr x => bool_decide (x ∈ s)
  | _ => false
  end.

(** A [Map<string, _>] key. *)
Definition map_key (v : JsValue) : Outcome string :=
  match v with
  | JStr s => Ok s
  | _ => OutOfModel
  end.

(** [arr.forEach((x, index) => ...)] where the callback updates the
    enclosing state [st]. *)
Fixpoint forEach {St : Type} (body : nat → JsValue → St → Outcome St)
    (index : nat) (arr : list JsValue) (st : St) : Outcome St :=
  match arr with
  | [] => Ok st
  | x :: rest => st' ← body index x st; forEach body (S index) rest st'
  end.

(** ToString, as a template literal applies it. *)
Fixpoint ToString (v : JsValue) : string :=
  match v with
  | JUndefined => "undefined"
  | JNull => "null"
  | JBool true => "true"
  | JBool false => "false"
  | JNum n => pretty n
  | JStr s => s
  | JArr items =>
      String.concat ","
        (map (λ x, match x with JUndefined | JNull => "" | _ => ToString x end) items)
  | JObj _ => "[object Object]"
  end.

(** ** Recursion over a value, bounded by its depth *)

Section depth_rec.
Context {A B : Type}.
Variable F : (JsValue → A → Outcome B) → JsValue → A → Outcome B.

Fixpoint iterF (fuel : nat) : JsValue → A → Outcome B :=
  match fuel with
  | 0 => λ _ _, OutOfModel
  | S n => F (iterF n)
  end.

Definition depth_rec (v : JsValue) : A → Outcome B := iterF (S (depth v)) v.
End depth_rec.

(** ** The component type registry *)

Definition SUPPORTED_COMPONENT_TYPES : list string :=
  [ "MButton"; "MInput"; "MCard"; "MList"; "MText"; "MImage"; "MIcon";
    "MScanner"; "MTable"; "MForm"; "MWorkOrderCard"; "MLocationPicker";
    "MContainer"; "MRow"; "MCol"; "MGrid"; "MScrollView";
    "MSelect"; "MDatePicker"; "MSwitch"; "MRadio"; "MCheckbox" ].

Definition componentTypeSet : gset string := list_to_set SUPPORTED_COMPONENT_TYPES.

Definition isComponentTypeSupported (type : string) : bool :=
  bool_decide (type ∈ componentTypeSet).

(** ** Validation *)

(** [errors.push(e)] *)
Definition push (errors : list ValidationError) (path message code : string)
    : list ValidationError :=
  errors ++ [mkValidationError path message code].

(** The body of [validateComponentConfig]; [self] is the recursive call. *)
Definition validateComponentConfig_body
    (self : JsValue → string → Outcome (list ValidationError))
    (config : JsValue) (path : string) : Outcome (list ValidationError) :=
  let errors : list ValidationError := [] in
  if negb (truthy config) || negb (typeof config =? "object") then
    Ok (push errors path "组件配置必须是对象" "INVALID_CONFIG")
  else
    id ← get config "id";
    let errors :=
      if negb (truthy id) || negb (typeof id =? "string")
      then push errors (path +:+ ".id") "组件ID是必填的字符串" "REQUIRED_FIELD"
      else errors in
    type ← get config "type";
    let errors :=
      if negb (truthy type) || negb (typeof type =? "string")
      then push errors (path +:+ ".type") "组件类型是必填的字符串" "REQUIRED_FIELD"
      else if negb (set_has componentTypeSet type)
      then push errors (path +:+ ".type")
             ("不支持的组件类型: " +:+ ToString type) "UNSUPPORTED_TYPE"
      else errors in
    props ← get config "props";
    let errors :=
      if negb (strict_eq props JUndefined) && negb (typeof props =? "object")
      then push errors (path +:+ ".props") "组件属性必须是对象" "INVALID_TYPE"
      else errors in
    children ← get config "children";
    if negb (strict_eq children JUndefined) then
      if negb (isArray children)
      then Ok (push errors (path +:+ ".children") "子组件必须是数组" "INVALID_TYPE")
      else
        arr ← array_elements children;
        forEach (λ index child errors,
                   childErrors ← self child (path +:+ ".children[" +:+ pretty index +:+ "]");
                   Ok (errors ++ childErrors))
                0 arr errors
    else Ok errors.

Definition validateComponentConfig : JsValue → string → Outcome (list ValidationError) :=
  depth_rec validateComponentConfig_body.

Definition validTypes : list string := ["api"; "static"; "computed"].

(** [validTypes.includes(v)] *)
Definition includes (l : list string) (v : JsValue) : bool :=
  existsb (λ t, strict_eq v (JStr t)) l.

Definition validateDataSourceConfig (config : JsValue) (path : string)
    : Outcome (list ValidationError) :=
  let errors : list ValidationError := [] in
  if negb (truthy config) || negb (typeof config =? "object") then
    Ok (push errors path "数据源配置必须是对象" "INVALID_CONFIG")
  else
    id ← get config "id";
    let errors :=
      if negb (truthy id) || negb (typeof id =? "string")
      then push errors (path +:+ ".id") "数据源ID是必填的字符串" "REQUIRED_FIELD"
      else errors in
    type ← get config "type";
    let errors :=
      if negb (truthy type) || negb (includes validTypes type)
      then push errors (path +:+ ".type")
             ("数据源类型必须是: " +:+ String.concat ", " validTypes) "INVALID_TYPE"
      else errors in
    cfg ← get config "config";
    let errors :=
      if negb (truthy cfg) || negb (typeof cfg =? "object")
      then push errors (path +:+ ".config") "数据源配置详情是必填的" "REQUIRED_FIELD"
      else errors in
    Ok errors.

Definition validatePageConfig (config : JsValue) : Outcome ValidationResult :=
  let errors : list ValidationError := [] in
  if negb (truthy config) || negb (typeof config =? "object") then
    let errors := push errors "" "配置必须是一个对象" "INVALID_CONFIG" in
    Ok (mkValidationResult false errors)
  else
    pageCode ← get config "pageCode";
    let errors :=
      if negb (truthy pageCode) || negb (typeof pageCode =? "string")
      then push errors "pageCode" "页面编码是必填的字符串" "REQUIRED_FIELD"
      else errors in
    title ← get config "title";
    let errors :=
      if negb (truthy title) || negb (typeof title =? "string")
      then push errors "title" "页面标题是必填的字符串" "REQUIRED_FIELD"
      else errors in
    components ← get config "components";
    errors ←
      (if negb (isArray components)
       then Ok (push errors "components" "组件列表必须是数组" "INVALID_TYPE")
       else
         arr ← array_elements components;
         forEach (λ index comp errors,
                    compErrors ← validateComponentConfig comp
                                   ("components[" +:+ pretty index +:+ "]");
                    Ok (errors ++ compErrors))
                 0 arr errors);
    dataSource ← get config "dataSource";
    errors ←
      (if negb (strict_eq dataSource JUndefined) then
         if negb (isArray dataSource)
         then Ok (push errors "dataSource" "数据源配置必须是数组" "INVALID_TYPE")
         else
           arr ← array_elements dataSource;
           forEach (λ index ds errors,
                      dsErrors ← validateDataSourceConfig ds
                                   ("dataSource[" +:+ pretty index +:+ "]");
                      Ok (errors ++ dsErrors))
                   0 arr errors
       else Ok errors);
    Ok (mkValidationResult (length errors =? 0)%nat errors).

(** ** Parsing *)

#[warnings="-register-all"]
Inductive ParsedComponent : Type := mkParsedComponent {
  pc_id : JsValue;
  pc_type : JsValue;
  pc_props : list (string * JsValue);
  pc_children : option (list ParsedComponent);
  pc_visible : bool
}.

Record ParsedPage := mkParsedPage {
  pp_pageCode : JsValue;
  pp_title : JsValue;
  pp_components : list ParsedComponent;
  pp_dataSources : gmap string JsValue
}.

Fixpoint string_chars (s : string) : list JsValue :=
  match s with
  | EmptyString => []
  | String c rest => JStr (String c EmptyString) :: string_chars rest
  end.

(** [{ ...v }]: the own enumerable properties of [v], none for a primitive
    other than a string. *)
Definition spread (v : JsValue) : list (string * JsValue) :=
  match v with
  | JObj fields => fields
  | JArr items => imap (λ i x, (pretty i, x)) items
  | JStr s => imap (λ i x, (pretty i, x)) (string_chars s)
  | _ => []
  end.

(** The body of [parseComponent]; [self] is the recursive call. *)
Definition parseComponent_body
    (self : JsValue → gset string → Outcome ParsedComponent)
    (config : JsValue) (permissions : gset string) : Outcome ParsedComponent :=
  explicit ← get config "visible";
  let visible := negb (strict_eq explicit (JBool false)) in
  permission ← get config "permission";
  let visible :=
    if truthy permission && negb (set_has permissions permission)
    then false else visible in
  configChildren ← get config "children";
  children ←
    (if strict_eq configChildren JUndefined || strict_eq configChildren JNull
     then Ok None
     else
       arr ← array_elements configChildren;
       Some <$> mapM (λ child, self child permissions) arr);
  id ← get config "id";
  type ← get config "type";
  props ← get config "props";
  Ok (mkParsedComponent id type (spread props) children visible).

Definition parseComponent : JsValue → gset string → Outcome ParsedComponent :=
  depth_rec parseComponent_body.

(** One round of the [config.dataSource.forEach] callback of
    [parsePageConfig], on the map built so far. *)
Definition initDataSource (ds : JsValue) (dataSources : gmap string JsValue)
    : Outcome (gmap string JsValue) :=
  type ← get ds "type";
  materialize ←
    (if strict_eq type (JStr "static")
     then cfg ← get ds "config"; has_in "data" cfg
     else Ok false);
  if (materialize : bool) then
    id ← get ds "id";
    key ← map_key id;
    cfg ← get ds "config";
    data ← get cfg "data";
    Ok (<[key := data]> dataSources)
  else
    id ← get ds "id";
    key ← map_key id;
    Ok (<[key := JNull]> dataSources).

Definition parsePageConfig (config : JsValue) (userPermissions : list string)
    : Outcome ParsedPage :=
  validation ← validatePageConfig config;
  if negb (vr_valid validation) then
    Throw (ParseError "页面配置验证失败" "" (vr_errors validation))
  else
    let permissions : gset string := list_to_set userPermissions in
    configComponents ← get config "components";
    arr ← array_elements configComponents;
    components ← mapM (λ comp, parseComponent comp permissions) arr;
    configDataSource ← get config "dataSource";
    dataSources ←
      (if truthy configDataSource then
         arr ← array_elements configDataSource;
         forEach (λ _ ds dataSources, initDataSource ds dataSources) 0 arr ∅
       else Ok ∅);
    pageCode ← get config "pageCode";
    title ← get config "title";
    Ok (mkParsedPage pageCode title components dataSources).

(** ** Data bindings *)

(** The body of the local [collectBindings]; [self] is the recursive call and
    the [bindings] map of the enclosing [getDataBindings] is threaded
    through. *)
Definition collectBindings_body
    (self : JsValue → gmap string (list JsValue) → Outcome (gmap string (list JsValue)))
    (components : JsValue) (bindings : gmap string (list JsValue))
    : Outcome (gmap string (list JsValue)) :=
  arr ← array_elements components;
  forEach (λ _ comp bindings,
             dataBinding ← get comp "dataBinding";
             bindings ←
               (if truthy dataBinding then
                  sourceValue ← get dataBinding "source";
                  source ← map_key sourceValue;
                  let bindings :=
                    if negb (bool_decide (is_Some (bindings !! source)))
                    then <[source := []]> bindings else bindings in
                  field ← get dataBinding "field";
                  Ok (alter (λ fields, fields ++ [field]) source bindings)
                else Ok bindings);
             children ← get comp "children";
             if truthy children then self children bindings else Ok bindings)
          0 arr bindings.

Definition collectBindings
    : JsValue → gmap string (list JsValue) → Outcome (gmap string (list JsValue)) :=
  depth_rec collectBindings_body.

Definition getDataBindings (config : JsValue) : Outcome (gmap string (list JsValue)) :=
  components ← get config "components";
  collectBindings components ∅.

(** ** Binding resolution *)

Record DataContext := mkDataContext {
  dataSources : gmap string JsValue;
  formData : JsValue;
  params : JsValue
}.

(** The two prototype objects that plain data inherits from. *)
Inductive Prototype : Type :=
  | ObjectPrototype
  | ArrayPrototype.

(** What the loop variable [value] of [resolveBinding] holds: the context
    object itself, a plain value, or what a property read reaches through
    the prototype chain: a prototype object or one of its methods, named by
    the prototype that holds it. *)
Inductive Cursor : Type :=
  | AtContext
  | AtValue (v : JsValue)
  | AtPrototype (p : Prototype)
  | AtFunction (holder : Prototype) (name : string).

(** The string-keyed methods of [Object.prototype] and of
    [Array.prototype], as ECMAScript 2025 and its Annex B list them. *)
Definition OBJECT_PROTOTYPE_METHODS : list string :=
  [ "constructor"; "hasOwnProperty"; "isPrototypeOf"; "propertyIsEnumerable";
    "toLocaleString"; "toString"; "valueOf";
    "__defineGetter__"; "__defineSetter__"; "__lookupGetter__"; "__lookupSetter__" ].

Definition ARRAY_PROTOTYPE_METHODS : list string :=
  [ "at"; "concat"; "constructor"; "copyWithin"; "entries"; "every"; "fill";
    "filter"; "find"; "findIndex"; "findLast"; "findLastIndex"; "flat";
    "flatMap"; "forEach"; "includes"; "indexOf"; "join"; "keys"; "lastIndexOf";
    "map"; "pop"; "push"; "reduce"; "reduceRight"; "reverse"; "shift"; "slice";
    "some"; "sort"; "splice"; "toLocaleString"; "toReversed"; "toSorted";
    "toSpliced"; "toString"; "unshift"; "values"; "with" ].

(** The property [part] as [Object.prototype] holds it, read for a receiver
    whose own prototype is [above]: the accessor [__proto__] answers with the
    prototype of the receiver, a method name with the method. *)
Definition object_prototype_property (above : Cursor) (part : string) : option Cursor :=
  if part =? "__proto__" then Some above
  else if bool_decide (part ∈ OBJECT_PROTOTYPE_METHODS)
       then Some (AtFunction ObjectPrototype part)
  else None.

(** The property [part] as [Array.prototype] holds it, or else as
    [Object.prototype] does; [Array.prototype] is itself an empty array. *)
Definition array_prototype_property (above : Cursor) (part : string) : option Cursor :=
  if part =? "length" then Some (AtValue (JNum 0))
  else if bool_decide (part ∈ ARRAY_PROTOTYPE_METHODS)
       then Some (AtFunction ArrayPrototype part)
  else object_prototype_property above part.

(** The property [part] of a plain object or an array: its own property, or
    else the one it inherits. *)
Definition find_property (v : JsValue) (part : string) : option Cursor :=
  match own_property v part with
  | Some w => Some (AtValue w)
  | None =>
      match v with
      | JObj _ => object_prototype_property (AtPrototype ObjectPrototype) part
      | JArr _ => array_prototype_property (AtPrototype ArrayPrototype) part
      | _ => None
      end
  end.

(** The property [part] of a prototype object; nothing is above
    [Object.prototype]. *)
Definition find_prototype_property (p : Prototype) (part : string) : option Cursor :=
  match p with
  | ObjectPrototype => object_prototype_property (AtValue JNull) part
  | ArrayPrototype => array_prototype_property (AtPrototype ObjectPrototype) part
  end.

(** [value[part]] with a key that the caller chooses: a TypeError on [null]
    and [undefined], [undefined] when the property is neither own nor
    inherited.  The wrapper prototypes of strings, numbers and booleans are
    left out of the model. *)
Definition get_member (v : JsValue) (part : string) : Outcome Cursor :=
  match v with
  | JUndefined | JNull => Throw TypeError
  | JArr _ | JObj _ => Ok (default (AtValue JUndefined) (find_property v part))
  | _ => OutOfModel
  end.

(** [expression.split('.')] *)
Fixpoint split_dot (s : string) : list string :=
  match s with
  | EmptyString => [EmptyString]
  | String c rest =>
      if Ascii.eqb c (Ascii.ascii_of_nat 46) then EmptyString :: split_dot rest
      else match split_dot rest with
           | part :: parts => String c part :: parts
           | [] => [String c EmptyString]
           end
  end.

(** [Object.fromEntries(map)] *)
Definition fromEntries (m : gmap string JsValue) : JsValue := JObj (map_to_list m).

(** [context[part]] for a part other than ['dataSources']: the context is
    an object literal with the own properties [dataSources], [formData] and
    [params]. *)
Definition context_property (context : DataContext) (part : string) : Cursor :=
  if part =? "formData" then AtValue (formData context)
  else if part =? "params" then AtValue (params context)
  else default (AtValue JUndefined)
         (object_prototype_property (AtPrototype ObjectPrototype) part).

(** The [for (const part of parts)] loop of [resolveBinding].  A prototype
    object has [typeof] ['object'], a method [typeof] ['function']. *)
Fixpoint resolve_parts (context : DataContext) (parts : list string) (value : Cursor)
    : Outcome Cursor :=
  match parts with
  | [] => Ok value
  | part :: rest =>
      match value with
      | AtContext =>
          if part =? "dataSources"
          then resolve_parts context rest (AtValue (fromEntries (dataSources context)))
          else resolve_parts context rest (context_property context part)
      | AtValue v =>
          if strict_eq v JNull || strict_eq v JUndefined then Ok (AtValue JUndefined)
          else if typeof v =? "object" then
            next ← get_member v part;
            resolve_parts context rest next
          else Ok (AtValue JUndefined)
      | AtPrototype p =>
          resolve_parts context rest
            (default (AtValue JUndefined) (find_prototype_property p part))
      | AtFunction _ _ => Ok (AtValue JUndefined)
      end
  end.

Definition resolveBinding (expression : string) (context : DataContext) : Outcome Cursor :=
  let parts := split_dot expression in
  resolve_parts context parts AtContext.

(** ** The data context *)

(** [createDataContext(dataSources?, formData?, params?)]: [x || fallback]
    replaces an omitted or falsy argument by an empty map or an empty
    object; a [Map] is never falsy. *)
Definition createDataContext (sources : option (gmap string JsValue))
    (form pageParams : option JsValue) : DataContext :=
  let or_empty (given : option JsValue) :=
    match given with
    | Some v => if truthy v then v else JObj []
    | None => JObj []
    end in
  mkDataContext (default ∅ sources) (or_empty form) (or_empty pageParams).

(** ** The renderer *)

Section renderer.
Context {Component : Type}.

(** What [h(...)] is called with: the placeholder element with its class and
    text, or a registered component with its props and, when there is at
    least one rendered child, the children of its default slot. *)
#[warnings="-register-all"]
Inductive VNode : Type :=
  | VElement (tag : string) (props : list (string * JsValue)) (text : string)
  | VComponent (component : Component) (props : list (string * JsValue))
      (slot : option (list VNode)).

(** A [Map<string, Component>]: its entries in insertion order, one per
    key. *)
Fixpoint registry_get (registry : list (string * Component)) (name : string)
    : option Component :=
  match registry with
  | [] => None
  | (key, component) :: rest =>
      if key =? name then Some component else registry_get rest name
  end.

(** [map.set(name, component)]: an existing key keeps its place. *)
Fixpoint registry_set (registry : list (string * Component)) (name : string)
    (component : Component) : list (string * Component) :=
  match registry with
  | [] => [(name, component)]
  | (key, old) :: rest =>
      if key =? name then (key, component) :: rest
      else (key, old) :: registry_set rest name component
  end.

(** The module-level [componentRegistry] is passed in and, where a function
    updates it, returned. *)
Definition registerComponent (name : string) (component : Component)
    (componentRegistry : list (string * Component)) : list (string * Component) :=
  registry_set componentRegistry name component.

(** [components] stands for [Object.entries(components)]. *)
Definition registerComponents (components : list (string * Component))
    (componentRegistry : list (string * Component)) : list (string * Component) :=
  foldl (λ registry entry, registry_set registry entry.1 entry.2)
        componentRegistry components.

Definition getComponent (name : string)
    (componentRegistry : list (string * Component)) : option Component :=
  registry_get componentRegistry name.

Definition hasComponent (name : string)
    (componentRegistry : list (string * Component)) : bool :=
  bool_decide (is_Some (registry_get componentRegistry name)).

Definition clearRegistry (componentRegistry : list (string * Component))
    : list (string * Component) := [].

Definition getRegisteredComponents (componentRegistry : list (string * Component))
    : list string := componentRegistry.*1.

(** [options.customComponents?.get(type) || componentRegistry.get(type)];
    both maps are keyed by strings. *)
Definition find_component (customComponents : option (list (string * Component)))
    (componentRegistry : list (string * Component)) (type : JsValue)
    : option Component :=
  match type with
  | JStr name =>
      match customComponents ≫= λ custom, registry_get custom name with
      | Some component => Some component
      | None => registry_get componentRegistry name
      end
  | _ => None
  end.

Fixpoint renderComponent (customComponents : option (list (string * Component)))
    (componentRegistry : list (string * Component)) (config : ParsedComponent)
    : option VNode :=
  if negb (pc_visible config) then None
  else
    match find_component customComponents componentRegistry (pc_type config) with
    | None =>
        Some (VElement "div" [("class", JStr "component-not-found")]
                ("[" +:+ ToString (pc_type config) +:+ "]"))
    | Some component =>
        let props := pc_props config in
        let children :=
          match pc_children config with
          | Some nodes =>
              Some (omap (renderComponent customComponents componentRegistry) nodes)
          | None => None
          end in
        Some (VComponent component props
                match children with
                | Some (first :: others) => Some (first :: others)
                | _ => None
                end)
    end.

Definition renderPage (customComponents : option (list (string * Component)))
    (componentRegistry : list (string * Component)) (page : ParsedPage)
    : list VNode :=
  omap (renderComponent customComponents componentRegistry) (pp_components page).

End renderer.

(** [renderedComponents] of the dynamic page: the visible top-level
    components of the parsed page, none before a page is parsed. *)
Definition renderedComponents (parsedPage : option ParsedPage) : list ParsedComponent :=
  match parsedPage with
  | None => []
  | Some page => filter (λ comp, pc_visible comp = true) (pp_components page)
  end.

(** ** Event configurations *)

(** The array index that a property key denotes, if any: the key is the
    canonical decimal numeral of an integer below [2^32 - 1]. *)
Definition index_key (key : string) : option N :=
  n ← parse_digits key 0;
  if bool_decide (pretty n = key) && (n <? 4294967295)%N then Some n else None.

(** The properties of an object, each key at its first occurrence. *)
Fixpoint first_occurrences (seen : list string) (fields : list (string * JsValue))
    : list (string * JsValue) :=
  match fields with
  | [] => []
  | (key, v) :: rest =>
      if bool_decide (key ∈ seen) then first_occurrences seen rest
      else (key, v) :: first_occurrences (key :: seen) rest
  end.

Fixpoint insert_indexed (n : N) (v : JsValue) (sorted : list (N * JsValue))
    : list (N * JsValue) :=
  match sorted with
  | [] => [(n, v)]
  | (m, w) :: rest =>
      if (n <? m)%N then (n, v) :: (m, w) :: rest
      else (m, w) :: insert_indexed n v rest
  end.

(** The order in which the own properties of an object are enumerated:
    array-index keys in ascending numeric order, then the other keys in
    insertion order. *)
Definition enumerated_values (fields : list (string * JsValue)) : list JsValue :=
  let own := first_occurrences [] fields in
  let indexed :=
    foldr (λ kv sorted,
             match index_key kv.1 with
             | Some n => insert_indexed n kv.2 sorted
             | None => sorted
             end) [] own in
  indexed.*2 ++ (filter (λ kv, index_key kv.1 = None) own).*2.

(** [Object.values(v)]: a TypeError on [null] and [undefined], nothing for a
    number or a boolean; the characters of a string are left out of the
    model. *)
Definition object_values (v : JsValue) : Outcome (list JsValue) :=
  match v with
  | JUndefined | JNull => Throw TypeError
  | JBool _ | JNum _ => Ok []
  | JStr _ => OutOfModel
  | JArr items => Ok items
  | JObj fields => Ok (enumerated_values fields)
  end.

(** The elements that spreading [...v] yields: those of an array; a value
    that is not iterable is a TypeError, and the characters of a string are
    left out of the model. *)
Definition iterable_elements (v : JsValue) : Outcome (list JsValue) :=
  match v with
  | JArr items => Ok items
  | JStr _ => OutOfModel
  | _ => Throw TypeError
  end.

(** The body of the local [collectEvents]; [self] is the recursive call and
    the [events] array of the enclosing [getEventConfigs] is threaded
    through. *)
Definition collectEvents_body
    (self : JsValue → list JsValue → Outcome (list JsValue))
    (components : JsValue) (events : list JsValue) : Outcome (list JsValue) :=
  arr ← array_elements components;
  forEach (λ _ comp events,
             compEvents ← get comp "events";
             events ←
               (if truthy compEvents then
                  values ← object_values compEvents;
                  forEach (λ _ event events, Ok (events ++ [event])) 0 values events
                else Ok events);
             children ← get comp "children";
             if truthy children then self children events else Ok events)
          0 arr events.

Definition collectEvents : JsValue → list JsValue → Outcome (list JsValue) :=
  depth_rec collectEvents_body.

Definition getEventConfigs (config : JsValue) : Outcome (list JsValue) :=
  configEvents ← get config "events";
  events ←
    (if truthy configEvents then
       items ← iterable_elements configEvents;
       Ok ([] ++ items)
     else Ok []);
  components ← get config "components";
  collectEvents components events.

(** * Specification vocabulary *)

(** ** Reading a property without the exception *)

(** [v[key]] when the read cannot throw. *)
Definition prop (v : JsValue) (key : string) : JsValue :=
  default JUndefined (own_property v key).

(** ** Validator callbacks and own errors *)

(** The callbacks of the validators only append to [errors]. *)
Definition appending (f : nat → JsValue → Outcome (list ValidationError))
    : nat → JsValue → list ValidationError → Outcome (list ValidationError) :=
  λ index x errors, found ← f index x; Ok (errors ++ found).

Definition invalid_config_report : ValidationResult :=
  mkValidationResult false [mkValidationError "" "配置必须是一个对象" "INVALID_CONFIG"].

(** The errors [validateComponentConfig] raises on the node itself, before it
    looks at [children]. *)
Definition own_errors (config : JsValue) (path : string) : list ValidationError :=
  let errors : list ValidationError := [] in
  let errors :=
    if negb (truthy (prop config "id")) || negb (typeof (prop config "id") =? "string")
    then push errors (path +:+ ".id") "组件ID是必填的字符串" "REQUIRED_FIELD"
    else errors in
  let errors :=
    if negb (truthy (prop config "type")) || negb (typeof (prop config "type") =? "string")
    then push errors (path +:+ ".type") "组件类型是必填的字符串" "REQUIRED_FIELD"
    else if negb (set_has componentTypeSet (prop config "type"))
    then push errors (path +:+ ".type")
           ("不支持的组件类型: " +:+ ToString (prop config "type")) "UNSUPPORTED_TYPE"
    else errors in
  if negb (strict_eq (prop config "props") JUndefined)
     && negb (typeof (prop config "props") =? "object")
  then push errors (path +:+ ".props") "组件属性必须是对象" "INVALID_TYPE"
  else errors.

(** ** The parsed tree against the config tree *)

(** [tree_related P config parsed]: [parsed] has the shape of [config], node
    for node and child for child in array order, and [P] relates each config
    node to the parsed node at the same position. *)
#[warnings="-register-all"]
Inductive tree_related (P : JsValue → ParsedComponent → Prop)
    : JsValue → ParsedComponent → Prop :=
  | related_leaf config parsed :
      P config parsed →
      prop config "children" = JUndefined →
      pc_children parsed = None →
      tree_related P config parsed
  | related_node config parsed configs parseds :
      P config parsed →
      prop config "children" = JArr configs →
      pc_children parsed = Some parseds →
      Forall2 (tree_related P) configs parseds →
      tree_related P config parsed.

(** The [visible] flag [parseComponent] computes for a node. *)
Definition checked_visible (permissions : gset string) (config : JsValue) : bool :=
  let visible := negb (strict_eq (prop config "visible") (JBool false)) in
  if truthy (prop config "permission")
     && negb (set_has permissions (prop config "permission"))
  then false else visible.

Definition parsed_node (permissions : gset string) (config : JsValue)
    (children : option (list ParsedComponent)) : ParsedComponent :=
  mkParsedComponent (prop config "id") (prop config "type")
    (spread (prop config "props")) children (checked_visible permissions config).

(** A parsed node carries the [id] and [type] of its config node. *)
Definition same_identity (config : JsValue) (parsed : ParsedComponent) : Prop :=
  get config "id" = Ok (pc_id parsed) ∧ get config "type" = Ok (pc_type parsed).

(** The permission check of the resolver on a declared permission
    ([None]: no [permission] field). *)
Definition permission_passes (permissions : gset string) (declared : option string) : bool :=
  match declared with
  | None => true
  | Some required => (required =? "") || bool_decide (required ∈ permissions)
  end.

(** [visible] as the resolver specifies it, from the node's own fields. *)
Definition visible_as_specified (permissions : gset string)
    (config : JsValue) (parsed : ParsedComponent) : Prop :=
  ∀ (explicit : JsValue) (declared : option string),
    get config "visible" = Ok explicit →
    get config "permission" = Ok (from_option JStr JUndefined declared) →
    pc_visible parsed
    = negb (strict_eq explicit (JBool false))
      && permission_passes permissions declared.

(** ** Initial data-source values *)

(** The key and the value one validated entry of [dataSource] contributes to
    the [dataSources] map. *)
Definition source_key (ds : JsValue) : string :=
  match prop ds "id" with JStr id => id | _ => "" end.

Definition initial_value (ds : JsValue) : JsValue :=
  if strict_eq (prop ds "type") (JStr "static")
     && bool_decide (is_Some (own_property (prop ds "config") "data"))
  then prop (prop ds "config") "data"
  else JNull.

Definition initial_dataSources (sources : list JsValue) : gmap string JsValue :=
  foldl (λ m ds, <[source_key ds := initial_value ds]> m) ∅ sources.

(** ** Paths through a data context *)

(** One segment of a dotted path: the property [part] of the current value,
    when that value is an object and has the property, as its own or as an
    inherited one.  On the context object, [dataSources] reads as the object
    of the map's entries.  A method is a function, not an object: no segment
    leads on from it. *)
Definition segment (context : DataContext) (value : Cursor) (part : string)
    : option Cursor :=
  match value with
  | AtContext =>
      if part =? "dataSources" then Some (AtValue (fromEntries (dataSources context)))
      else if part =? "formData" then Some (AtValue (formData context))
      else if part =? "params" then Some (AtValue (params context))
      else object_prototype_property (AtPrototype ObjectPrototype) part
  | AtValue (JArr items) => find_property (JArr items) part
  | AtValue (JObj fields) => find_property (JObj fields) part
  | AtValue _ => None
  | AtPrototype p => find_prototype_property p part
  | AtFunction _ _ => None
  end.

(** [reaches context value parts final]: every segment of [parts] is present,
    each on an object, and following them from [value] ends at [final]. *)
Inductive reaches (context : DataContext) : Cursor → list string → Cursor → Prop :=
  | reaches_end value : reaches context value [] value
  | reaches_step value part next rest final :
      segment context value part = Some next →
      reaches context next rest final →
      reaches context value (part :: rest) final.

(** What a key reads as on a plain object: the own property when there is
    one, else what [Object.prototype] provides under that name, else
    [undefined]. *)
Definition plain_object_property (own : option JsValue) (key : string) : Cursor :=
  match own with
  | Some v => AtValue v
  | None =>
      default (AtValue JUndefined)
        (object_prototype_property (AtPrototype ObjectPrototype) key)
  end.

(** ** Bindings in traversal order *)

(** The binding a component carries itself: none, or one [(source, field)]
    pair read from its [dataBinding] object. *)
Inductive own_binding (comp : JsValue) : list (string * JsValue) → Prop :=
  | own_binding_none :
      get comp "dataBinding" = Ok JUndefined → own_binding comp []
  | own_binding_some dataBinding source field :
      get comp "dataBinding" = Ok dataBinding →
      get dataBinding "source" = Ok (JStr source) →
      get dataBinding "field" = Ok field →
      own_binding comp [(source, field)].

Inductive component_children (comp : JsValue) : list JsValue → Prop :=
  | component_children_none :
      get comp "children" = Ok JUndefined → component_children comp []
  | component_children_some children :
      get comp "children" = Ok (JArr children) → component_children comp children.

(** [component_bindings comp pairs]: [pairs] lists the bindings of the
    subtree of [comp] depth first, the node before its children and the
    children in array order. *)
#[warnings="-register-all"]
Inductive component_bindings : JsValue → list (string * JsValue) → Prop :=
  | component_bindings_node comp own children nested :
      own_binding comp own →
      component_children comp children →
      Forall2 component_bindings children nested →
      component_bindings comp (own ++ concat nested).

(** The fields bound to [source], in the order of [pairs]. *)
Definition fields_bound_to (source : string) (pairs : list (string * JsValue))
    : list JsValue :=
  (filter (λ pair, pair.1 = source) pairs).*2.

(** One binding recorded in the map, as the callback of [collectBindings]
    does it. *)
Definition add_binding (bindings : gmap string (list JsValue))
    (pair : string * JsValue) : gmap string (list JsValue) :=
  alter (λ fields, fields ++ [pair.2]) pair.1
    (if negb (bool_decide (is_Some (bindings !! pair.1)))
     then <[pair.1 := []]> bindings else bindings).

(** ** What the validators accept *)

(** A component config the validator has nothing to say about: an object
    with a non-empty string [id], a registered [type], [props] absent or of
    [typeof] ['object'], and [children] absent or an array of such
    components. *)
#[warnings="-register-all"]
Inductive well_formed_component : JsValue → Prop :=
  | well_formed_component_intro config id type props :
      get config "id" = Ok (JStr id) → id ≠ "" →
      get config "type" = Ok (JStr type) → isComponentTypeSupported type = true →
      get config "props" = Ok props →
      (props = JUndefined ∨ typeof props = "object") →
      (get config "children" = Ok JUndefined
       ∨ ∃ children, get config "children" = Ok (JArr children)
                     ∧ Forall well_formed_component children) →
      well_formed_component config.

Definition well_formed_source (ds : JsValue) : Prop :=
  ∃ id type cfg,
    get ds "id" = Ok (JStr id) ∧ id ≠ ""
    ∧ get ds "type" = Ok (JStr type) ∧ type ∈ validTypes
    ∧ get ds "config" = Ok cfg ∧ truthy cfg = true ∧ typeof cfg = "object".

Definition well_formed_page (config : JsValue) : Prop :=
  ∃ pageCode title comps,
    get config "pageCode" = Ok (JStr pageCode) ∧ pageCode ≠ ""
    ∧ get config "title" = Ok (JStr title) ∧ title ≠ ""
    ∧ get config "components" = Ok (JArr comps)
    ∧ Forall well_formed_component comps
    ∧ (get config "dataSource" = Ok JUndefined
       ∨ ∃ sources, get config "dataSource" = Ok (JArr sources)
                    ∧ Forall well_formed_source sources).

(** ** The parts of a validation report *)

Definition errors_of (result : Outcome (list ValidationError)) : list ValidationError :=
  match result with Ok errors => errors | _ => [] end.

(** The errors on [pageCode] and [title]. *)
Definition page_header_errors (config : JsValue) : list ValidationError :=
  (if negb (truthy (prop config "pageCode"))
      || negb (typeof (prop config "pageCode") =? "string")
   then [mkValidationError "pageCode" "页面编码是必填的字符串" "REQUIRED_FIELD"]
   else [])
  ++ (if negb (truthy (prop config "title"))
         || negb (typeof (prop config "title") =? "string")
      then [mkValidationError "title" "页面标题是必填的字符串" "REQUIRED_FIELD"]
      else []).

(** The errors of the components, each validated at its indexed path, in
    array order. *)
Definition page_components_errors (config : JsValue) : list ValidationError :=
  match prop config "components" with
  | JArr comps =>
      concat (imap (λ index comp,
                errors_of (validateComponentConfig comp
                             ("components[" +:+ pretty index +:+ "]"))) comps)
  | _ => [mkValidationError "components" "组件列表必须是数组" "INVALID_TYPE"]
  end.

Definition page_dataSource_errors (config : JsValue) : list ValidationError :=
  match prop config "dataSource" with
  | JUndefined => []
  | JArr sources =>
      concat (imap (λ index ds,
                errors_of (validateDataSourceConfig ds
                             ("dataSource[" +:+ pretty index +:+ "]"))) sources)
  | _ => [mkValidationError "dataSource" "数据源配置必须是数组" "INVALID_TYPE"]
  end.

(** The same error, reported below [prefix]. *)
Definition relocate (prefix : string) (e : ValidationError) : ValidationError :=
  mkValidationError (prefix +:+ ve_path e) (ve_message e) (ve_code e).

(** ** Nodes by position *)

(** The parsed node reached from a list of roots by a non-empty list of
    child indices. *)
Fixpoint node_at (nodes : list ParsedComponent) (position : list nat)
    : option ParsedComponent :=
  match position with
  | [] => None
  | i :: rest =>
      node ← nodes !! i;
      match rest with
      | [] => Some node
      | _ => children ← pc_children node; node_at children rest
      end
  end.

(** The config node at the same position. *)
Fixpoint config_at (comps : list JsValue) (position : list nat) : option JsValue :=
  match position with
  | [] => None
  | i :: rest =>
      comp ← comps !! i;
      match rest with
      | [] => Some comp
      | _ => match prop comp "children" with
             | JArr children => config_at children rest
             | _ => None
             end
      end
  end.

(** ** Binding paths *)

(** No ['.'] in the string. *)
Fixpoint dot_free (s : string) : bool :=
  match s with
  | EmptyString => true
  | String c rest => negb (Ascii.eqb c (Ascii.ascii_of_nat 46)) && dot_free rest
  end.

(** ** Rendered and shown nodes *)

Section vnodes.
Context {Component : Type}.

(** The number of nodes of a rendered tree. *)
Fixpoint vnode_count (vnode : VNode (Component := Component)) : nat :=
  match vnode with
  | VElement _ _ _ => 1
  | VComponent _ _ slot =>
      S (match slot with
         | Some vnodes => sum_list (map vnode_count vnodes)
         | None => 0
         end)
  end.

End vnodes.

(** The number of nodes of a parsed tree that are visible together with all
    their ancestors. *)
Fixpoint shown_count (node : ParsedComponent) : nat :=
  if pc_visible node then
    S (match pc_children node with
       | Some nodes => sum_list (map shown_count nodes)
       | None => 0
       end)
  else 0.

(** ** Events in traversal order *)

(** The events a component contributes by itself: the values of its
    [events] object, none when [events] is falsy. *)
Inductive own_events (comp : JsValue) : list JsValue → Prop :=
  | own_events_none compEvents :
      get comp "events" = Ok compEvents → truthy compEvents = false →
      own_events comp []
  | own_events_some compEvents values :
      get comp "events" = Ok compEvents → truthy compEvents = true →
      object_values compEvents = Ok values →
      own_events comp values.

(** The events of a component and of the components nested below it: its
    own first, then those of its children, in array order. *)
#[warnings="-register-all"]
Inductive component_events : JsValue → list JsValue → Prop :=
  | component_events_node comp own children nested :
      own_events comp own →
      component_children comp children →
      Forall2 component_events children nested →
      component_events comp (own ++ concat nested).

(** The page-level events: the elements of the [events] array, none when
    [events] is falsy. *)
Inductive page_events (config : JsValue) : list JsValue → Prop :=
  | page_events_none configEvents :
      get config "events" = Ok configEvents → truthy configEvents = false →
      page_events config []
  | page_events_some items :
      get config "events" = Ok (JArr items) →
      page_events config items.

(** ** Sample configurations *)

Definition nested_page : JsValue :=
  JObj [("pageCode", JStr "test"); ("title", JStr "Test");
        ("components",
         JArr [JObj [("id", JStr "container"); ("type", JStr "MContainer");
                     ("props", JObj []); ("visible", JBool false);
                     ("children",
                      JArr [JObj [("id", JStr "child1"); ("type", JStr "MButton");
                                  ("props", JObj []); ("permission", JStr "admin")];
                            JObj [("id", JStr "child2"); ("type", JStr "MInput");
                                  ("props", JObj [])]])]])].

Definition sources_page : JsValue :=
  JObj [("pageCode", JStr "test"); ("title", JStr "Test");
        ("components", JArr [JObj [("id", JStr "comp1"); ("type", JStr "MList");
                                   ("props", JObj [])]]);
        ("dataSource",
         JArr [JObj [("id", JStr "staticData"); ("type", JStr "static");
                     ("config", JObj [("data", JArr [JNum 1; JNum 2; JNum 3])])];
               JObj [("id", JStr "apiData"); ("type", JStr "api");
                     ("config", JObj [("url", JStr "/api/data"); ("method", JStr "GET")])];
               JObj [("id", JStr "bare"); ("type", JStr "static");
                     ("config", JObj [("url", JStr "/api/data"); ("method", JStr "GET")])]])].

Definition empty_type_component : JsValue :=
  JObj [("id", JStr "comp1"); ("type", JStr ""); ("props", JObj [])].

Definition null_props_component : JsValue :=
  JObj [("id", JStr "comp1"); ("type", JStr "MButton"); ("props", JNull)].

Definition sample_context : DataContext :=
  mkDataContext {[ "orders" := JArr [JObj [("code", JStr "WO-1")]; JNull] ]}
    (JObj [("name", JStr "abc"); ("qty", JNum 0)]) (JObj []).

Definition namespaces_context : DataContext :=
  mkDataContext {[ "constructor" := JArr [] ]}
    (JObj [("constructor", JStr "own"); ("qty", JNum 0)]) (JObj []).

(** A page that passes validation with a [dataBinding] that is [null] and
    one without a [field]. *)
Definition loose_bindings_page : JsValue :=
  JObj [("pageCode", JStr "test"); ("title", JStr "Test");
        ("components",
         JArr [JObj [("id", JStr "comp1"); ("type", JStr "MContainer"); ("props", JObj []);
                     ("dataBinding", JObj [("source", JStr "form"); ("field", JStr "name")]);
                     ("children",
                      JArr [JObj [("id", JStr "comp2"); ("type", JStr "MText");
                                  ("props", JObj []); ("dataBinding", JNull)]])];
               JObj [("id", JStr "comp3"); ("type", JStr "MInput"); ("props", JObj []);
                     ("dataBinding", JObj [("source", JStr "list")])]])].

Definition bound_page : JsValue :=
  JObj [("pageCode", JStr "test"); ("title", JStr "Test");
        ("components",
         JArr [JObj [("id", JStr "comp1"); ("type", JStr "MContainer"); ("props", JObj []);
                     ("dataBinding", JObj [("source", JStr "form"); ("field", JStr "name")]);
                     ("children",
                      JArr [JObj [("id", JStr "comp2"); ("type", JStr "MText");
                                  ("props", JObj []);
                                  ("dataBinding",
                                   JObj [("source", JStr "list"); ("field", JStr "items")])]])];
               JObj [("id", JStr "comp3"); ("type", JStr "MInput"); ("props", JObj []);
                     ("dataBinding", JObj [("source", JStr "form"); ("field", JStr "age")])]])].

Definition string_visible_page : JsValue :=
  JObj [("pageCode", JStr "test"); ("title", JStr "Test");
        ("components",
         JArr [JObj [("id", JStr "a"); ("type", JStr "MText"); ("visible", JStr "false")];
               JObj [("id", JStr "b"); ("type", JStr "MText"); ("visible", JBool false)]])].

Definition events_page : JsValue :=
  JObj [("pageCode", JStr "test"); ("title", JStr "Test");
        ("events", JArr [JObj [("type", JStr "navigate")]]);
        ("components",
         JArr [JObj [("id", JStr "comp1"); ("type", JStr "MContainer"); ("props", JObj []);
                     ("events", JObj [("tap", JStr "e1"); ("1", JStr "e2");
                                      ("0", JStr "e3"); ("tap", JStr "e4")]);
                     ("children",
                      JArr [JObj [("id", JStr "comp2"); ("type", JStr "MButton");
                                  ("props", JObj []);
                                  ("events", JObj [("click", JStr "e5")])]])];
               JObj [("id", JStr "comp3"); ("type", JStr "MInput"); ("props", JObj []);
                     ("events", JArr [JStr "e6"])]])].

(** A page that passes validation although its [events] is not a list. *)
Definition keyed_events_page : JsValue :=
  JObj [("pageCode", JStr "test"); ("title", JStr "Test");
        ("events", JObj [("load", JObj [("type", JStr "navigate")])]);
        ("components",
         JArr [JObj [("id", JStr "comp1"); ("type", JStr "MButton"); ("props", JObj []);
                     ("dataBinding", JStr "form.name");
                     ("events", JNum 1)]])].

(** * Properties *)

(** ** The outcome monad *)

Lemma bind_Ok {A B} (m : Outcome A) (f : A → Outcome B) (b : B) :
  m ≫= f = Ok b ↔ ∃ a, m = Ok a ∧ f a = Ok b.
Proof.
  destruct m as [a| |]; simpl; split; try done.
  - eauto.
  - by intros (a' & [= <-] & ?).
  - by intros (? & ? & _).
  - by intros (? & ? & _).
Qed.

Lemma bind_ext {A B} (m : Outcome A) (f g : A → Outcome B) :
  (∀ a, m = Ok a → f a = g a) → m ≫= f = m ≫= g.
Proof. destruct m; simpl; auto. Qed.

Lemma forEach_ext {St} (f g : nat → JsValue → St → Outcome St) arr :
  (∀ i x st, x ∈ arr → f i x st = g i x st) →
  ∀ i st, forEach f i arr st = forEach g i arr st.
Proof.
  induction arr as [|x arr IH]; intros Hfg i st; simpl; [done|].
  rewrite Hfg by left. apply bind_ext. intros st' _.
  apply IH. intros. apply Hfg. by right.
Qed.

Lemma mapM_ext {A B} (f g : A → Outcome B) (l : list A) :
  (∀ x, x ∈ l → f x = g x) → mapM f l = mapM g l.
Proof.
  induction l as [|x l IH]; intros Hfg; simpl; [done|].
  rewrite Hfg by left. apply bind_ext. intros y _.
  rewrite IH; [done|]. intros. apply Hfg. by right.
Qed.

Lemma mapM_Ok {A B} (f : A → Outcome B) (l : list A) (k : list B) :
  mapM f l = Ok k ↔ Forall2 (λ x y, f x = Ok y) l k.
Proof.
  revert k. induction l as [|x l IH]; intros k; simpl.
  - split; [intros [= <-]; constructor | by inversion 1].
  - split.
    + intros (y & Hy & Hk)%bind_Ok. apply bind_Ok in Hk as (k' & Hk' & [= <-]).
      constructor; [done|]. by apply IH.
    + inversion 1 as [|? y ? k' Hy Hk']; subst. rewrite Hy. simpl.
      apply IH in Hk'. rewrite Hk'. done.
Qed.

(** ** Depth of the parts of a value *)

Lemma depth_elem (x : JsValue) (items : list JsValue) :
  x ∈ items → depth x < depth (JArr items).
Proof.
  simpl. induction 1 as [x l|x y l _ IH]; simpl; lia.
Qed.

Lemma depth_own_field fields key w :
  own_field fields key = Some w → depth w < depth (JObj fields).
Proof.
  simpl. induction fields as [|[k v] fields IH]; simpl; [done|].
  destruct (k =? key); [intros [= ->]; lia|]. intros ?%IH. lia.
Qed.

Lemma depth_own_property v key w :
  own_property v key = Some w → depth w < depth v ∨ depth w = 0.
Proof.
  destruct v as [| | | |s|items|fields]; simpl; try done.
  - destruct (key =? "length"); [intros [= <-]; by right|].
    destruct (array_index _ _); simpl; [|done].
    unfold char_at. destruct (String.get _ _); intros [= <-]. by right.
  - destruct (key =? "length"); [intros [= <-]; by right|].
    destruct (array_index _ _) as [i|]; simpl; [|done].
    intros Hw%list_elem_of_lookup_2%depth_elem. by left.
  - intros ?%depth_own_field. by left.
Qed.

Lemma depth_get v key w : get v key = Ok w → (depth w ≤ depth v)%nat.
Proof.
  unfold get. destruct (own_property v key) as [w'|] eqn:Hw.
  - apply depth_own_property in Hw.
    destruct v; simpl; try done; intros [= <-]; simpl in *; lia.
  - destruct v; simpl; try done; intros [= <-]; simpl; lia.
Qed.

Lemma depth_get_array v key items :
  get v key = Ok (JArr items) → depth (JArr items) < depth v.
Proof.
  unfold get. destruct (own_property v key) as [w'|] eqn:Hw.
  - apply depth_own_property in Hw.
    destruct v; simpl; try done; intros [= ->]; simpl in *; lia.
  - destruct v; simpl; try done.
Qed.

Lemma array_elements_Ok v arr : array_elements v = Ok arr ↔ v = JArr arr.
Proof. destruct v; simpl; split; intros; by simplify_eq. Qed.

(** ** Depth-bounded recursion reaches a fixed point *)

Section depth_rec_facts.
Context {A B : Type}.
Variable F : (JsValue → A → Outcome B) → JsValue → A → Outcome B.
Hypothesis F_local : ∀ f g v a,
  (∀ x a', depth x < depth v → f x a' = g x a') → F f v a = F g v a.

Lemma iterF_enough n : ∀ m v a,
  (m ≤ n)%nat → depth v < m → iterF F m v a = depth_rec F v a.
Proof.
  induction n as [|n IH]; intros m v a Hm Hv; [lia|].
  destruct m as [|m]; [lia|]. unfold depth_rec. simpl.
  apply F_local. intros x a' Hx.
  rewrite (IH m) by lia. rewrite (IH (depth v)) by lia. done.
Qed.

Lemma depth_rec_unfold v a : depth_rec F v a = F (depth_rec F) v a.
Proof.
  unfold depth_rec at 1. simpl. apply F_local. intros x a' Hx.
  by apply (iterF_enough (depth v)).
Qed.
End depth_rec_facts.

Lemma depth_ind (P : JsValue → Prop) :
  (∀ v, (∀ x, depth x < depth v → P x) → P v) → ∀ v, P v.
Proof.
  intros step v. remember (depth v) as n eqn:Hn.
  revert v Hn. induction (lt_wf n) as [n _ IH]. intros v ->.
  apply step. intros x Hx. by apply (IH (depth x)).
Qed.

(** ** The recursive functions satisfy their defining equations *)

Lemma validateComponentConfig_body_local f g config path :
  (∀ x p, depth x < depth config → f x p = g x p) →
  validateComponentConfig_body f config path = validateComponentConfig_body g config path.
Proof.
  intros Hfg. unfold validateComponentConfig_body.
  destruct (negb (truthy config) || negb (typeof config =? "object")); [done|].
  apply bind_ext; intros id _. apply bind_ext; intros type _.
  apply bind_ext; intros props _. apply bind_ext; intros children Hchildren.
  destruct (negb (strict_eq children JUndefined)); [|done].
  destruct (negb (isArray children)); [done|].
  apply bind_ext; intros arr ->%array_elements_Ok.
  apply forEach_ext. intros i x st Hx. rewrite Hfg; [done|].
  apply depth_elem in Hx. apply depth_get_array in Hchildren. lia.
Qed.

Lemma validateComponentConfig_unfold config path :
  validateComponentConfig config path
  = validateComponentConfig_body validateComponentConfig config path.
Proof. apply depth_rec_unfold, validateComponentConfig_body_local. Qed.

Lemma parseComponent_body_local f g config permissions :
  (∀ x p, depth x < depth config → f x p = g x p) →
  parseComponent_body f config permissions = parseComponent_body g config permissions.
Proof.
  intros Hfg. unfold parseComponent_body.
  apply bind_ext; intros explicit _. apply bind_ext; intros permission _.
  apply bind_ext; intros children Hchildren. f_equal.
  destruct (strict_eq children JUndefined || strict_eq children JNull); [done|].
  apply bind_ext; intros arr ->%array_elements_Ok. f_equal.
  apply mapM_ext. intros x Hx. apply Hfg.
  apply depth_elem in Hx. apply depth_get_array in Hchildren. lia.
Qed.

Lemma parseComponent_unfold config permissions :
  parseComponent config permissions
  = parseComponent_body parseComponent config permissions.
Proof. apply depth_rec_unfold, parseComponent_body_local. Qed.

Lemma collectBindings_body_local f g components bindings :
  (∀ x b, depth x < depth components → f x b = g x b) →
  collectBindings_body f components bindings = collectBindings_body g components bindings.
Proof.
  intros Hfg. unfold collectBindings_body.
  apply bind_ext; intros arr ->%array_elements_Ok.
  apply forEach_ext. intros i comp st Hcomp.
  apply bind_ext; intros dataBinding _. apply bind_ext; intros st' _.
  apply bind_ext; intros children Hchildren.
  destruct (truthy children); [|done]. apply Hfg.
  apply depth_elem in Hcomp. apply depth_get in Hchildren. lia.
Qed.

Lemma collectBindings_unfold components bindings :
  collectBindings components bindings
  = collectBindings_body collectBindings components bindings.
Proof. apply depth_rec_unfold, collectBindings_body_local. Qed.

(** ** Reading properties and iterating arrays *)

Lemma get_truthy v key : truthy v = true → get v key = Ok (prop v key).
Proof. by destruct v. Qed.

Lemma guard_object v :
  negb (truthy v) || negb (typeof v =? "object") = false →
  truthy v = true ∧ (∃ items, v = JArr items) ∨ truthy v = true ∧ (∃ fields, v = JObj fields).
Proof.
  destruct v as [| |[]|n|s|items|fields]; simpl; try done; eauto.
  - by destruct (n =? 0)%Z.
  - by destruct (s =? "").
Qed.

Lemma guard_truthy v :
  negb (truthy v) || negb (typeof v =? "object") = false → truthy v = true.
Proof. by intros [[? _]|[? _]]%guard_object. Qed.

Lemma forEach_appending_total f arr :
  (∀ i x, x ∈ arr → ∃ es, f i x = Ok es) →
  ∀ i errors, ∃ out, forEach (appending f) i arr errors = Ok out.
Proof.
  induction arr as [|x arr IH]; intros Hf i errors; simpl; [eauto|].
  destruct (Hf i x) as [es Hes]; [left|].
  assert (appending f i x errors = Ok (errors ++ es)) as ->
    by (unfold appending; by rewrite Hes).
  simpl.
  apply IH. intros. apply Hf. by right.
Qed.

(** What a run of validator callbacks adds to [errors]: exactly the errors
    found by the callbacks. *)
Lemma forEach_appending_more f arr : ∀ i errors out,
  forEach (appending f) i arr errors = Ok out →
  ∃ more, out = errors ++ more
          ∧ ∀ e, e ∈ more ↔ ∃ k x es, arr !! k = Some x ∧ f (i + k) x = Ok es ∧ e ∈ es.
Proof.
  induction arr as [|x arr IH]; intros i errors out; simpl.
  - intros [= <-]. exists []. split; [by rewrite app_nil_r|].
    intros e. split; [by intros ?%not_elem_of_nil|by intros (k & y & es & ? & _)].
  - intros (st & Hst & Hout)%bind_Ok.
    apply bind_Ok in Hst as (es & Hes & [= <-]).
    apply IH in Hout as (more & -> & Hmore). exists (es ++ more).
    split; [by rewrite app_assoc|]. intros e. rewrite elem_of_app, Hmore. split.
    + intros [?|(k & y & es' & Hk & Hy & ?)].
      * exists 0, x, es. by rewrite Nat.add_0_r.
      * exists (S k), y, es'. by rewrite Nat.add_succ_r.
    + intros (k & y & es' & Hk & Hy & ?).
      destruct k as [|k]; simpl in Hk.
      * injection Hk as <-. rewrite Nat.add_0_r, Hes in Hy. injection Hy as <-.
        by left.
      * right. exists k, y, es'. by rewrite Nat.add_succ_r in Hy.
Qed.

Lemma forEach_appending_elem f arr i errors out :
  forEach (appending f) i arr errors = Ok out →
  ∀ e, e ∈ out ↔
       e ∈ errors ∨ ∃ k x es, arr !! k = Some x ∧ f (i + k) x = Ok es ∧ e ∈ es.
Proof.
  intros (more & -> & Hmore)%forEach_appending_more e.
  by rewrite elem_of_app, Hmore.
Qed.

Lemma forEach_appending_prefix f arr i errors out :
  forEach (appending f) i arr errors = Ok out → ∃ more, out = errors ++ more.
Proof. intros (more & -> & _)%forEach_appending_more. eauto. Qed.

(** ** Validation never throws *)

Lemma validateComponentConfig_total config :
  ∀ path, ∃ errors, validateComponentConfig config path = Ok errors.
Proof.
  induction config as [config IH] using depth_ind. intros path.
  rewrite validateComponentConfig_unfold. unfold validateComponentConfig_body.
  destruct (negb (truthy config) || negb (typeof config =? "object")) eqn:Hguard;
    [eauto|].
  pose proof (guard_truthy _ Hguard) as Htruthy.
  rewrite !get_truthy by done. simpl.
  destruct (negb (strict_eq (prop config "children") JUndefined)); [|eauto].
  destruct (prop config "children") as [| | | | |items|] eqn:Hchildren; simpl; eauto.
  apply (forEach_appending_total
           (λ index child, validateComponentConfig child (path +:+ ".children[" +:+ pretty index +:+ "]"))).
  intros i x Hx. apply IH.
  assert (get config "children" = Ok (JArr items)) as Hget
    by (by rewrite get_truthy, Hchildren).
  apply depth_elem in Hx. apply depth_get_array in Hget. lia.
Qed.

Lemma validateDataSourceConfig_total config path :
  ∃ errors, validateDataSourceConfig config path = Ok errors.
Proof.
  unfold validateDataSourceConfig.
  destruct (negb (truthy config) || negb (typeof config =? "object")) eqn:Hguard;
    [eauto|].
  pose proof (guard_truthy _ Hguard) as Htruthy.
  rewrite !get_truthy by done. simpl. eauto.
Qed.

(** The two ways [validatePageConfig] ends: at the guard with the single
    [INVALID_CONFIG] error, or at the bottom with the accumulated list. *)
Lemma validatePageConfig_report_shape (config : JsValue) :
  (negb (truthy config) || negb (typeof config =? "object") = true
   ∧ validatePageConfig config = Ok invalid_config_report)
  ∨ (negb (truthy config) || negb (typeof config =? "object") = false
     ∧ ∃ errors,
         validatePageConfig config
         = Ok (mkValidationResult (length errors =? 0)%nat errors)).
Proof.
  unfold validatePageConfig.
  destruct (negb (truthy config) || negb (typeof config =? "object")) eqn:Hguard.
  { by left. }
  right. split; [done|].
  pose proof (guard_truthy _ Hguard) as Htruthy.
  rewrite !get_truthy by done. simpl.
  set (errors2 := if negb (truthy (prop config "title")) || _ then _ else _).
  assert (∃ errors3,
    (if negb (isArray (prop config "components"))
     then Ok (push errors2 "components" "组件列表必须是数组" "INVALID_TYPE")
     else arr ← array_elements (prop config "components");
          forEach (λ index comp errors,
                     compErrors ← validateComponentConfig comp
                                    ("components[" +:+ pretty index +:+ "]");
                     Ok (errors ++ compErrors)) 0 arr errors2) = Ok errors3)
    as [errors3 ->].
  { destruct (prop config "components"); simpl; eauto.
    apply (forEach_appending_total
             (λ index comp, validateComponentConfig comp ("components[" +:+ pretty index +:+ "]"))).
    intros. apply validateComponentConfig_total. }
  simpl.
  assert (∃ errors4,
    (if negb (strict_eq (prop config "dataSource") JUndefined) then
       if negb (isArray (prop config "dataSource"))
       then Ok (push errors3 "dataSource" "数据源配置必须是数组" "INVALID_TYPE")
       else arr ← array_elements (prop config "dataSource");
            forEach (λ index ds errors,
                       dsErrors ← validateDataSourceConfig ds
                                    ("dataSource[" +:+ pretty index +:+ "]");
                       Ok (errors ++ dsErrors)) 0 arr errors3
     else Ok errors3) = Ok errors4)
    as [errors4 ->].
  { destruct (prop config "dataSource"); simpl; eauto.
    apply (forEach_appending_total
             (λ index ds, validateDataSourceConfig ds ("dataSource[" +:+ pretty index +:+ "]"))).
    intros. apply validateDataSourceConfig_total. }
  simpl. eauto.
Qed.

(** C4. [validatePageConfig] returns normally on every input, its [valid]
    flag is [errors.length === 0], and on [null] or on a value whose [typeof]
    is not ['object'] the report is exactly one [INVALID_CONFIG] error at
    path [""]. *)
Theorem validatePageConfig_never_throws (config : JsValue) :
  ∃ report,
    validatePageConfig config = Ok report
    ∧ vr_valid report = (length (vr_errors report) =? 0)%nat
    ∧ (config = JNull ∨ typeof config ≠ "object" → report = invalid_config_report).
Proof.
  destruct (validatePageConfig_report_shape config)
    as [[Hguard Hreport]|[Hguard [errors Hreport]]].
  - exists invalid_config_report. by repeat split.
  - eexists. split; [exact Hreport|]. split; [done|]. simpl.
    intros [->|Htype]; [done|].
    apply guard_object in Hguard as [[_ [? ->]]|[_ [? ->]]]; done.
Qed.

(** ** What a config that passed validation looks like *)

Lemma forEach_appending_nil f arr i errors :
  forEach (appending f) i arr errors = Ok [] →
  errors = [] ∧ ∀ k x es, arr !! k = Some x → f (i + k) x = Ok es → es = [].
Proof.
  intros Hrun. split.
  - apply forEach_appending_prefix in Hrun as [more Hmore].
    symmetry in Hmore. by apply app_eq_nil in Hmore as [? _].
  - intros k x [|e es] Hk Hf; [done|]. exfalso.
    apply (not_elem_of_nil e), (forEach_appending_elem _ _ _ _ _ Hrun).
    right. exists k, x, (e :: es). repeat split; [done..|left].
Qed.

Lemma push_not_nil errors path message code : push errors path message code ≠ [].
Proof. unfold push. by destruct errors. Qed.

Lemma if_push_nil (c : bool) errors path message code :
  (if c then push errors path message code else errors) = [] → c = false ∧ errors = [].
Proof. destruct c; [|done]. by intros ?%push_not_nil. Qed.

Lemma validateComponentConfig_nil_inv config path :
  validateComponentConfig config path = Ok [] →
  truthy config = true
  ∧ (prop config "children" = JUndefined
     ∨ ∃ items, prop config "children" = JArr items
         ∧ ∀ x, x ∈ items → ∃ path', validateComponentConfig x path' = Ok []).
Proof.
  rewrite validateComponentConfig_unfold. unfold validateComponentConfig_body.
  destruct (negb (truthy config) || negb (typeof config =? "object")) eqn:Hguard.
  { by intros [=]. }
  pose proof (guard_truthy _ Hguard) as Htruthy.
  rewrite !get_truthy by done. simpl. intros Hrun. split; [done|].
  destruct (prop config "children") as [| | | | |items|] eqn:Hchildren; simpl in Hrun;
    try (injection Hrun as Hpush; by apply push_not_nil in Hpush); [by left|].
  right. exists items. split; [done|]. intros x [k Hk]%list_elem_of_lookup_1.
  apply (forEach_appending_nil
           (λ index child, validateComponentConfig child (path +:+ ".children[" +:+ pretty index +:+ "]")))
    in Hrun as [_ Hall].
  destruct (validateComponentConfig_total x (path +:+ ".children[" +:+ pretty (0 + k) +:+ "]"))
    as [es Hes].
  eexists. rewrite Hes. f_equal. by eapply Hall.
Qed.

(** ** The parsed tree mirrors the config tree *)

Lemma Forall_exists_Forall2 {A B} (R : A → B → Prop) (l : list A) :
  (∀ x, x ∈ l → ∃ y, R x y) → ∃ k, Forall2 R l k.
Proof.
  induction l as [|x l IH]; intros Hl; [by exists []|].
  destruct (Hl x) as [y Hy]; [left|].
  destruct IH as [k Hk]; [intros; apply Hl; by right|].
  exists (y :: k). by constructor.
Qed.

Section parse_valid.
Variable P : JsValue → ParsedComponent → Prop.
Variable permissions : gset string.
Hypothesis P_node : ∀ config children,
  truthy config = true → P config (parsed_node permissions config children).

Lemma parseComponent_valid config :
  ∀ path, validateComponentConfig config path = Ok [] →
  ∃ parsed, parseComponent config permissions = Ok parsed
            ∧ tree_related P config parsed.
Proof.
  induction config as [config IH] using depth_ind. intros path Hvalid.
  apply validateComponentConfig_nil_inv in Hvalid as [Htruthy Hchildren].
  rewrite parseComponent_unfold. unfold parseComponent_body.
  rewrite !get_truthy by done. simpl.
  destruct Hchildren as [Hnone|(items & Hitems & Hall)].
  - rewrite Hnone. simpl. eexists. split; [done|].
    apply related_leaf; [by apply P_node|done..].
  - rewrite Hitems. simpl.
    destruct (Forall_exists_Forall2
                (λ x y, parseComponent x permissions = Ok y ∧ tree_related P x y) items)
      as [parseds Hparseds].
    { intros x Hx. destruct (Hall x Hx) as [path' Hpath']. apply (IH x) in Hpath'; [done|].
      assert (get config "children" = Ok (JArr items)) as Hget
        by (by rewrite get_truthy, Hitems).
      apply depth_elem in Hx. apply depth_get_array in Hget. lia. }
    assert (mapM (λ child, parseComponent child permissions) items = Ok parseds) as ->.
    { apply mapM_Ok. eapply Forall2_impl; [done|]. by intros ?? [? _]. }
    simpl. eexists. split; [done|].
    eapply related_node; [by apply P_node|done..|].
    eapply Forall2_impl; [done|]. by intros ?? [_ ?].
Qed.
End parse_valid.

Lemma validatePageConfig_valid_inv config report :
  validatePageConfig config = Ok report → vr_valid report = true →
  truthy config = true
  ∧ vr_errors report = []
  ∧ (∃ comps, prop config "components" = JArr comps
       ∧ ∀ x, x ∈ comps → ∃ path, validateComponentConfig x path = Ok [])
  ∧ (prop config "dataSource" = JUndefined
     ∨ ∃ sources, prop config "dataSource" = JArr sources
         ∧ ∀ ds, ds ∈ sources → ∃ path, validateDataSourceConfig ds path = Ok []).
Proof.
  unfold validatePageConfig.
  destruct (negb (truthy config) || negb (typeof config =? "object")) eqn:Hguard.
  { by intros [= <-]. }
  pose proof (guard_truthy _ Hguard) as Htruthy.
  rewrite !get_truthy by done. simpl.
  set (errors2 := if negb (truthy (prop config "title")) || _ then _ else _).
  intros (errors3 & Hcomps & Hrest)%bind_Ok.
  apply bind_Ok in Hrest as (errors4 & Hsources & [= <-]). simpl.
  intros Hnil%Nat.eqb_eq%nil_length_inv. subst errors4.
  split; [done|]. split; [done|].
  assert (errors3 = [] ∧
    (prop config "dataSource" = JUndefined
     ∨ ∃ sources, prop config "dataSource" = JArr sources
         ∧ ∀ ds, ds ∈ sources → ∃ path, validateDataSourceConfig ds path = Ok []))
    as [-> Hds].
  { destruct (prop config "dataSource") as [| | | | |sources|] eqn:Hsrc; simpl in Hsources;
      try (injection Hsources as Hpush; by apply push_not_nil in Hpush).
    - injection Hsources as ->. split; [done|by left].
    - apply (forEach_appending_nil
               (λ index ds, validateDataSourceConfig ds ("dataSource[" +:+ pretty index +:+ "]")))
        in Hsources as [-> Hall].
      split; [done|]. right. exists sources. split; [done|].
      intros ds [k Hk]%list_elem_of_lookup_1.
      destruct (validateDataSourceConfig_total ds ("dataSource[" +:+ pretty (0 + k) +:+ "]"))
        as [es Hes].
      eexists. rewrite Hes. f_equal. by eapply Hall. }
  split; [|done].
  destruct (prop config "components") as [| | | | |comps|] eqn:Hc; simpl in Hcomps;
    try (injection Hcomps as Hpush; by apply push_not_nil in Hpush).
  exists comps. split; [done|].
  apply (forEach_appending_nil
           (λ index comp, validateComponentConfig comp ("components[" +:+ pretty index +:+ "]")))
    in Hcomps as [_ Hall].
  intros x [k Hk]%list_elem_of_lookup_1.
  destruct (validateComponentConfig_total x ("components[" +:+ pretty (0 + k) +:+ "]"))
    as [es Hes].
  eexists. rewrite Hes. f_equal. by eapply Hall.
Qed.

(** A data source entry that passed [validateDataSourceConfig]. *)
Lemma validateDataSourceConfig_nil_inv ds path :
  validateDataSourceConfig ds path = Ok [] →
  truthy ds = true
  ∧ (∃ id, prop ds "id" = JStr id ∧ id ≠ "")
  ∧ includes validTypes (prop ds "type") = true
  ∧ ((∃ items, prop ds "config" = JArr items) ∨ (∃ fields, prop ds "config" = JObj fields)).
Proof.
  unfold validateDataSourceConfig.
  destruct (negb (truthy ds) || negb (typeof ds =? "object")) eqn:Hguard.
  { by intros [=]. }
  pose proof (guard_truthy _ Hguard) as Htruthy.
  rewrite !get_truthy by done. simpl.
  intros [= Hnil].
  apply if_push_nil in Hnil as [Hcfg Hnil].
  apply if_push_nil in Hnil as [Htype Hnil].
  apply if_push_nil in Hnil as [Hid _].
  split; [done|]. split; [|split].
  - destruct (prop ds "id") as [| |[]|?|id| |]; simpl in Hid; try done.
    + by destruct (_ =? _)%Z.
    + exists id. split; [done|]. intros ->. done.
  - apply orb_false_iff in Htype as [_ ?]. by apply negb_false_iff.
  - apply guard_object in Hcfg as [[_ ?]|[_ ?]]; eauto.
Qed.

(** ** Initial data-source values *)

Lemma initDataSource_valid ds path (m : gmap string JsValue) :
  validateDataSourceConfig ds path = Ok [] →
  initDataSource ds m = Ok (<[source_key ds := initial_value ds]> m).
Proof.
  intros (Htruthy & (id & Hid & _) & _ & Hcfg)%validateDataSourceConfig_nil_inv.
  unfold initDataSource, initial_value, source_key.
  rewrite !get_truthy by done. simpl. rewrite Hid.
  assert (truthy (prop ds "config") = true) as Hc by (by destruct Hcfg as [[? ->]|[? ->]]).
  rewrite !get_truthy by done.
  assert (has_in "data" (prop ds "config")
          = Ok (bool_decide (is_Some (own_property (prop ds "config") "data")))) as Hin
    by (by destruct Hcfg as [[? ->]|[? ->]]).
  destruct (strict_eq (prop ds "type") (JStr "static")); simpl; [|done].
  rewrite Hin. simpl. by destruct (bool_decide _).
Qed.

Lemma forEach_initDataSource sources : ∀ i (m : gmap string JsValue),
  (∀ ds, ds ∈ sources → ∃ path, validateDataSourceConfig ds path = Ok []) →
  forEach (λ _ ds dataSources, initDataSource ds dataSources) i sources m
  = Ok (foldl (λ m ds, <[source_key ds := initial_value ds]> m) m sources).
Proof.
  induction sources as [|ds sources IH]; intros i m Hall; simpl; [done|].
  destruct (Hall ds) as [path Hpath]; [left|].
  rewrite (initDataSource_valid _ _ _ Hpath). simpl.
  apply IH. intros. apply Hall. by right.
Qed.

Lemma lookup_initial_other sources (m : gmap string JsValue) id :
  (∀ ds, ds ∈ sources → source_key ds ≠ id) →
  foldl (λ m ds, <[source_key ds := initial_value ds]> m) m sources !! id = m !! id.
Proof.
  revert m. induction sources as [|ds sources IH]; intros m Hall; simpl; [done|].
  rewrite IH by (intros; apply Hall; by right).
  apply lookup_insert_ne, Hall. left.
Qed.

(** The entry of an id is the one written by the last source carrying it. *)
Lemma lookup_initial_last sources : ∀ (m : gmap string JsValue) i ds,
  sources !! i = Some ds →
  (∀ j ds', i < j → sources !! j = Some ds' → source_key ds' ≠ source_key ds) →
  foldl (λ m ds, <[source_key ds := initial_value ds]> m) m sources !! source_key ds
  = Some (initial_value ds).
Proof.
  induction sources as [|d sources IH]; intros m i ds Hi Hlater; [done|].
  destruct i as [|i]; simpl in *.
  - injection Hi as ->. rewrite lookup_initial_other; [apply lookup_insert_eq|].
    intros ds' [j Hj]%list_elem_of_lookup_1. apply (Hlater (S j)); [lia|done].
  - apply (IH _ i); [done|]. intros j ds' Hij Hj. apply (Hlater (S j)); [lia|done].
Qed.

(** ** Parsing a config that passed validation *)

Section parse_page_valid.
Variable P : JsValue → ParsedComponent → Prop.
Variable userPermissions : list string.
Hypothesis P_node : ∀ config children,
  truthy config = true →
  P config (parsed_node (list_to_set userPermissions) config children).

Lemma parsePageConfig_valid config report :
  validatePageConfig config = Ok report → vr_valid report = true →
  ∃ comps parseds sources,
    prop config "components" = JArr comps
    ∧ Forall2 (tree_related P) comps parseds
    ∧ (prop config "dataSource" = JUndefined ∧ sources = []
       ∨ prop config "dataSource" = JArr sources)
    ∧ (∀ ds, ds ∈ sources → ∃ path, validateDataSourceConfig ds path = Ok [])
    ∧ parsePageConfig config userPermissions
      = Ok (mkParsedPage (prop config "pageCode") (prop config "title") parseds
              (initial_dataSources sources)).
Proof.
  intros Hreport Hvalid. unfold parsePageConfig. rewrite Hreport. simpl.
  rewrite Hvalid. simpl.
  apply validatePageConfig_valid_inv in Hreport
    as (Htruthy & _ & (comps & Hcomps & Hall) & Hsources); [|done].
  rewrite !get_truthy by done. simpl. rewrite Hcomps. simpl.
  destruct (Forall_exists_Forall2
              (λ x y, parseComponent x (list_to_set userPermissions) = Ok y
                      ∧ tree_related P x y) comps)
    as [parseds Hparseds].
  { intros x Hx. destruct (Hall x Hx) as [path Hpath].
    by eapply parseComponent_valid. }
  assert (mapM (λ comp, parseComponent comp (list_to_set userPermissions)) comps
          = Ok parseds) as ->.
  { apply mapM_Ok. eapply Forall2_impl; [done|]. by intros ?? [? _]. }
  assert (Forall2 (tree_related P) comps parseds) as Hrelated.
  { eapply Forall2_impl; [done|]. by intros ?? [_ ?]. }
  simpl. destruct Hsources as [Hnone|(sources & Hsome & Hds)].
  - rewrite Hnone. simpl. exists comps, parseds, [].
    repeat split; eauto. intros ds Hds. by apply not_elem_of_nil in Hds.
  - rewrite Hsome. simpl. rewrite forEach_initDataSource by done. simpl.
    exists comps, parseds, sources. eauto 10.
Qed.
End parse_page_valid.

(** * Behaviour of the validator, the parser and the collectors *)

(** ** Structure and visibility of the parsed tree *)

(** C1. For a config that passes [validatePageConfig], [parsePageConfig]
    returns a page whose [components] has the length of the input's
    [components]; at every index the parsed component has the [id] and [type]
    of the input component; and the same holds at every depth: the parsed
    tree has the shape of the config tree, child for child in array order,
    whatever the computed visibility. *)
Theorem parsePageConfig_preserves_structure
    (config : JsValue) (userPermissions : list string) (report : ValidationResult) :
  validatePageConfig config = Ok report →
  vr_valid report = true →
  ∃ page comps,
    parsePageConfig config userPermissions = Ok page
    ∧ get config "components" = Ok (JArr comps)
    ∧ length (pp_components page) = length comps
    ∧ (∀ i node parsed,
         comps !! i = Some node → pp_components page !! i = Some parsed →
         same_identity node parsed)
    ∧ Forall2 (tree_related same_identity) comps (pp_components page).
Proof.
  intros Hreport Hvalid.
  assert (∀ node children, truthy node = true →
            same_identity node (parsed_node (list_to_set userPermissions) node children))
    as HP.
  { intros node children Htruthy. split; by rewrite get_truthy. }
  destruct (parsePageConfig_valid _ _ HP _ _ Hreport Hvalid)
    as (comps & parseds & sources & Hcomps & Hrelated & _ & _ & Hparse).
  apply validatePageConfig_valid_inv in Hreport as (Htruthy & _); [|done].
  exists (mkParsedPage (prop config "pageCode") (prop config "title") parseds
            (initial_dataSources sources)), comps.
  simpl. split; [done|]. split; [by rewrite get_truthy, Hcomps|].
  split; [symmetry; by eapply Forall2_length|]. split; [|done].
  intros i node parsed Hnode Hparsed.
  destruct (Forall2_lookup_l _ _ _ _ _ Hrelated Hnode) as (parsed' & Hparsed' & Hrel).
  assert (parsed' = parsed) as -> by congruence.
  by destruct Hrel.
Qed.

Lemma parsePageConfig_preserves_structure_witness :
  ∃ page comps,
    parsePageConfig nested_page ["view"] = Ok page
    ∧ get nested_page "components" = Ok (JArr comps)
    ∧ length (pp_components page) = length comps
    ∧ (∀ i node parsed,
         comps !! i = Some node → pp_components page !! i = Some parsed →
         same_identity node parsed)
    ∧ Forall2 (tree_related same_identity) comps (pp_components page).
Proof.
  apply (parsePageConfig_preserves_structure nested_page ["view"]
           (mkValidationResult true [])); vm_compute; reflexivity.
Defined.

(** C2. In the page parsed from a valid config, every node at every depth
    has [visible] equal to (its own [visible] field [!== false]) and (its own
    [permission] is absent, empty, or in the caller's permission set).  The
    relation reads only the node's own fields, so a hidden parent leaves the
    [visible] of its children unchanged. *)
Theorem parsePageConfig_visible_per_node
    (config : JsValue) (userPermissions : list string) (report : ValidationResult) :
  validatePageConfig config = Ok report →
  vr_valid report = true →
  ∃ page comps,
    parsePageConfig config userPermissions = Ok page
    ∧ get config "components" = Ok (JArr comps)
    ∧ Forall2 (tree_related (visible_as_specified (list_to_set userPermissions)))
        comps (pp_components page).
Proof.
  intros Hreport Hvalid.
  assert (∀ node children, truthy node = true →
            visible_as_specified (list_to_set userPermissions) node
              (parsed_node (list_to_set userPermissions) node children))
    as HP; [|destruct (parsePageConfig_valid _ _ HP _ _ Hreport Hvalid)
    as (comps & parseds & sources & Hcomps & Hrelated & _ & _ & Hparse)].
  { intros node children Htruthy explicit declared. rewrite !get_truthy by done.
    intros [= <-] [= Hdeclared]. simpl. unfold checked_visible. rewrite Hdeclared.
    destruct declared as [required|]; simpl; [|by rewrite andb_true_r].
    destruct (required =? ""), (bool_decide (required ∈ _)); simpl;
      by rewrite ?andb_true_r, ?andb_false_r. }
  apply validatePageConfig_valid_inv in Hreport as (Htruthy & _); [|done].
  eexists _, comps. split; [done|]. split; [by rewrite get_truthy, Hcomps|done].
Qed.

Lemma parsePageConfig_visible_per_node_witness :
  ∃ page comps,
    parsePageConfig nested_page ["view"] = Ok page
    ∧ get nested_page "components" = Ok (JArr comps)
    ∧ Forall2 (tree_related (visible_as_specified (list_to_set ["view"])))
        comps (pp_components page).
Proof.
  apply (parsePageConfig_visible_per_node nested_page ["view"]
           (mkValidationResult true [])); vm_compute; reflexivity.
Defined.

(** A hidden parent with a visible child: the child stays visible. *)
Example hidden_parent_visible_child :
  (page ← parsePageConfig nested_page ["view"];
   Ok (map (λ parent, (pc_visible parent, map pc_visible <$> pc_children parent))
         (pp_components page)))
  = Ok [(false, Some [false; true])].
Proof. vm_compute. reflexivity. Qed.

(** ** The error channel of the parser *)

(** C3. [parsePageConfig] throws a [ParseError] exactly when
    [validatePageConfig] reports the config invalid; the thrown error carries
    the whole list of validation errors; on a valid config it returns a page
    and throws nothing. *)
Theorem parsePageConfig_throws_iff_invalid
    (config : JsValue) (userPermissions : list string) :
  ∃ report,
    validatePageConfig config = Ok report
    ∧ ((∃ message path details,
          parsePageConfig config userPermissions
          = Throw (ParseError message path details))
       ↔ vr_valid report = false)
    ∧ (vr_valid report = false →
       parsePageConfig config userPermissions
       = Throw (ParseError "页面配置验证失败" "" (vr_errors report)))
    ∧ (vr_valid report = true →
       ∃ page, parsePageConfig config userPermissions = Ok page).
Proof.
  assert (∃ report, validatePageConfig config = Ok report) as [report Hreport].
  { destruct (validatePageConfig_report_shape config)
      as [[_ Hreport]|[_ [errors Hreport]]]; eauto. }
  exists report. split; [done|].
  assert (vr_valid report = false →
          parsePageConfig config userPermissions
          = Throw (ParseError "页面配置验证失败" "" (vr_errors report))) as Hinvalid.
  { intros Hvalid. unfold parsePageConfig. rewrite Hreport. simpl. by rewrite Hvalid. }
  assert (vr_valid report = true →
          ∃ page, parsePageConfig config userPermissions = Ok page) as Hvalid.
  { intros Hvalid.
    destruct (parsePageConfig_valid (λ _ _, True) userPermissions
                (λ _ _ _, I) _ _ Hreport Hvalid)
      as (? & ? & ? & _ & _ & _ & _ & Hparse).
    eauto. }
  split; [|done]. split.
  - intros (message & path & details & Hthrow).
    destruct (vr_valid report); [|done].
    destruct Hvalid as [page Hpage]; [done|]. congruence.
  - intros ?%Hinvalid. eauto.
Qed.

(** The end-to-end scenario: [components] that is not an array. *)
Example parsePageConfig_rejects_non_array_components :
  parsePageConfig
    (JObj [("pageCode", JStr "demo"); ("title", JStr "Demo");
           ("components", JStr "not-an-array")]) []
  = Throw (ParseError "页面配置验证失败" ""
             [mkValidationError "components" "组件列表必须是数组" "INVALID_TYPE"]).
Proof. vm_compute. reflexivity. Qed.

Example validatePageConfig_accumulates :
  validatePageConfig
    (JObj [("title", JNum 7);
           ("components", JArr [JNull; JObj [("id", JStr "a"); ("type", JStr "MText");
                                              ("children", JStr "x")]]);
           ("dataSource", JArr [JObj [("id", JStr "s"); ("type", JStr "sql")]])])
  = Ok (mkValidationResult false
          [mkValidationError "pageCode" "页面编码是必填的字符串" "REQUIRED_FIELD";
           mkValidationError "title" "页面标题是必填的字符串" "REQUIRED_FIELD";
           mkValidationError "components[0]" "组件配置必须是对象" "INVALID_CONFIG";
           mkValidationError "components[1].children" "子组件必须是数组" "INVALID_TYPE";
           mkValidationError "dataSource[0].type"
             "数据源类型必须是: api, static, computed" "INVALID_TYPE";
           mkValidationError "dataSource[0].config" "数据源配置详情是必填的"
             "REQUIRED_FIELD"]).
Proof. vm_compute. reflexivity. Qed.

(** ** Initial contents of the data-source map *)

Lemma source_key_valid ds path id :
  validateDataSourceConfig ds path = Ok [] →
  (get ds "id" = Ok (JStr id) ↔ source_key ds = id).
Proof.
  intros (Htruthy & (id' & Hid & _) & _)%validateDataSourceConfig_nil_inv.
  rewrite get_truthy by done. unfold source_key. rewrite Hid.
  split; [by intros [= ->]|by intros ->].
Qed.

(** A validated data source of a valid page: its round of the callback
    writes [initial_value] under its id, and that is the final entry when no
    later source of the list carries the same id. *)
Lemma parsePageConfig_dataSource_entry config userPermissions report sources i ds id :
  validatePageConfig config = Ok report → vr_valid report = true →
  get config "dataSource" = Ok (JArr sources) →
  sources !! i = Some ds →
  get ds "id" = Ok (JStr id) →
  ∃ page, parsePageConfig config userPermissions = Ok page
          ∧ truthy ds = true
          ∧ truthy (prop ds "config") = true
          ∧ (∀ m, initDataSource ds m = Ok (<[id := initial_value ds]> m))
          ∧ ((∀ j ds', i < j → sources !! j = Some ds' → get ds' "id" ≠ Ok (JStr id)) →
             pp_dataSources page !! id = Some (initial_value ds)).
Proof.
  intros Hreport Hvalid Hsources Hi Hid.
  destruct (parsePageConfig_valid (λ _ _, True) userPermissions
              (λ _ _ _, I) _ _ Hreport Hvalid)
    as (comps & parseds & sources' & _ & _ & Hsrc & Hall & Hparse).
  apply validatePageConfig_valid_inv in Hreport as (Htruthy & _); [|done].
  rewrite get_truthy in Hsources by done. injection Hsources as Hsources.
  assert (sources' = sources) as ->
    by (destruct Hsrc as [[Hnone _]|Hsome]; congruence).
  eexists. split; [done|]. simpl.
  destruct (Hall ds) as [path Hpath]; [by eapply list_elem_of_lookup_2|].
  apply (source_key_valid _ _ id Hpath) in Hid as Hkey. subst id.
  apply validateDataSourceConfig_nil_inv in Hpath as Hinv.
  destruct Hinv as (Hds & _ & _ & Hcfg).
  split; [done|]. split; [by destruct Hcfg as [[? ->]|[? ->]]|].
  split; [intros m; by eapply initDataSource_valid|].
  intros Hlater. apply (lookup_initial_last _ _ i); [done|].
  intros j ds' Hij Hj Hsame. apply (Hlater j ds' Hij Hj).
  destruct (Hall ds') as [path' Hpath']; [by eapply list_elem_of_lookup_2|].
  by apply (source_key_valid _ _ _ Hpath').
Qed.

Lemma has_in_own_property key cfg (b : bool) :
  has_in key cfg = Ok b → b = bool_decide (is_Some (own_property cfg key)).
Proof. destruct cfg; simpl; by intros [= <-]. Qed.

(** C5, as the code has it.  For a valid config the parsed page exists and
    its [dataSources] map is empty when there is no [dataSource] field;
    an entry of type ['static'] whose [config] has a ['data'] key maps its id
    to [config.data] verbatim; an entry of type ['api'] or ['computed'] maps
    its id to [null].  An id is read at the last entry that carries it. *)
Theorem parsePageConfig_initial_dataSources
    (config : JsValue) (userPermissions : list string) (report : ValidationResult) :
  validatePageConfig config = Ok report →
  vr_valid report = true →
  ∃ page,
    parsePageConfig config userPermissions = Ok page
    ∧ (get config "dataSource" = Ok JUndefined → pp_dataSources page = ∅)
    ∧ ∀ sources i ds id cfg,
        get config "dataSource" = Ok (JArr sources) →
        sources !! i = Some ds →
        get ds "id" = Ok (JStr id) →
        (∀ j ds', i < j → sources !! j = Some ds' → get ds' "id" ≠ Ok (JStr id)) →
        get ds "config" = Ok cfg →
        (get ds "type" = Ok (JStr "static") → has_in "data" cfg = Ok true →
         ∃ data, get cfg "data" = Ok data ∧ pp_dataSources page !! id = Some data)
        ∧ (get ds "type" = Ok (JStr "api") ∨ get ds "type" = Ok (JStr "computed") →
           pp_dataSources page !! id = Some JNull).
Proof.
  intros Hreport Hvalid.
  destruct (parsePageConfig_valid (λ _ _, True) userPermissions
              (λ _ _ _, I) _ _ Hreport Hvalid)
    as (comps & parseds & sources' & _ & _ & Hsrc & Hall & Hparse).
  eexists. split; [done|]. simpl.
  pose proof Hreport as (Htruthy & _)%validatePageConfig_valid_inv; [|done].
  split.
  - rewrite get_truthy by done. intros [= Hnone].
    destruct Hsrc as [[_ ->]|Hsome]; [done|congruence].
  - intros sources i ds id cfg Hsources Hi Hid Hlater Hcfg.
    destruct (parsePageConfig_dataSource_entry _ userPermissions _ _ _ _ _
                Hreport Hvalid Hsources Hi Hid)
      as (page & Hpage & Hds & Hcfg' & _ & Hentry).
    specialize (Hentry Hlater).
    rewrite Hparse in Hpage. injection Hpage as <-. simpl in Hentry.
    rewrite !get_truthy in * by done. injection Hcfg as <-.
    unfold initial_value in Hentry. split.
    + intros [= Htype] Hin%has_in_own_property. rewrite Htype, <- Hin in Hentry.
      eexists. split; [by rewrite get_truthy|done].
    + intros [[= Htype]|[= Htype]]; by rewrite Htype in Hentry.
Qed.

Lemma parsePageConfig_initial_dataSources_witness :
  ∃ page,
    parsePageConfig sources_page [] = Ok page
    ∧ (get sources_page "dataSource" = Ok JUndefined → pp_dataSources page = ∅)
    ∧ ∀ sources i ds id cfg,
        get sources_page "dataSource" = Ok (JArr sources) →
        sources !! i = Some ds →
        get ds "id" = Ok (JStr id) →
        (∀ j ds', i < j → sources !! j = Some ds' → get ds' "id" ≠ Ok (JStr id)) →
        get ds "config" = Ok cfg →
        (get ds "type" = Ok (JStr "static") → has_in "data" cfg = Ok true →
         ∃ data, get cfg "data" = Ok data ∧ pp_dataSources page !! id = Some data)
        ∧ (get ds "type" = Ok (JStr "api") ∨ get ds "type" = Ok (JStr "computed") →
           pp_dataSources page !! id = Some JNull).
Proof.
  apply (parsePageConfig_initial_dataSources sources_page []
           (mkValidationResult true [])); vm_compute; reflexivity.
Defined.

(** C5 as stated fails: a valid entry of type ['static'] whose [config] has
    no ['data'] key is not mapped to [config.data] (which is [undefined]) but
    to [null]. *)
Lemma static_source_not_verbatim :
  ∃ page sources ds cfg data,
    parsePageConfig sources_page [] = Ok page
    ∧ get sources_page "dataSource" = Ok (JArr sources)
    ∧ sources !! 2 = Some ds
    ∧ get ds "type" = Ok (JStr "static")
    ∧ get ds "id" = Ok (JStr "bare")
    ∧ get ds "config" = Ok cfg
    ∧ get cfg "data" = Ok data
    ∧ pp_dataSources page !! "bare" ≠ Some data.
Proof.
  eexists _, _, _, _, _. repeat split; try (vm_compute; reflexivity).
  vm_compute. discriminate.
Qed.

(** C10. In a valid config, for a data source of type ['static'] whose
    [config] has no ['data'] key, the parse returns, the source's round of
    the callback writes [null] under its id, and [null] is what the parsed
    page holds under that id unless a later source reuses the id: the
    ['data'] key selects the verbatim value, the type alone does not. *)
Theorem static_source_without_data_is_null
    (config : JsValue) (userPermissions : list string) (report : ValidationResult)
    (sources : list JsValue) (i : nat) (ds cfg : JsValue) (id : string) :
  validatePageConfig config = Ok report →
  vr_valid report = true →
  get config "dataSource" = Ok (JArr sources) →
  sources !! i = Some ds →
  get ds "id" = Ok (JStr id) →
  get ds "type" = Ok (JStr "static") →
  get ds "config" = Ok cfg →
  has_in "data" cfg = Ok false →
  ∃ page,
    parsePageConfig config userPermissions = Ok page
    ∧ (∀ dataSources, initDataSource ds dataSources = Ok (<[id := JNull]> dataSources))
    ∧ ((∀ j ds', i < j → sources !! j = Some ds' → get ds' "id" ≠ Ok (JStr id)) →
       pp_dataSources page !! id = Some JNull).
Proof.
  intros Hreport Hvalid Hsources Hi Hid Htype Hcfg Hin.
  destruct (parsePageConfig_dataSource_entry _ userPermissions _ _ _ _ _
              Hreport Hvalid Hsources Hi Hid)
    as (page & Hpage & Hds & Hcfg' & Hround & Hentry).
  assert (initial_value ds = JNull) as Hnull.
  { rewrite !get_truthy in * by done. injection Hcfg as <-. injection Htype as Htype.
    apply has_in_own_property in Hin. unfold initial_value.
    by rewrite Htype, <- Hin. }
  rewrite Hnull in *. eauto.
Qed.

Lemma static_source_without_data_is_null_witness :
  ∃ page,
    parsePageConfig sources_page [] = Ok page
    ∧ (∀ dataSources,
         initDataSource
           (JObj [("id", JStr "bare"); ("type", JStr "static");
                  ("config", JObj [("url", JStr "/api/data"); ("method", JStr "GET")])])
           dataSources
         = Ok (<["bare" := JNull]> dataSources))
    ∧ ((∀ j ds', 2 < j →
          [JObj [("id", JStr "staticData"); ("type", JStr "static");
                 ("config", JObj [("data", JArr [JNum 1; JNum 2; JNum 3])])];
           JObj [("id", JStr "apiData"); ("type", JStr "api");
                 ("config", JObj [("url", JStr "/api/data"); ("method", JStr "GET")])];
           JObj [("id", JStr "bare"); ("type", JStr "static");
                 ("config", JObj [("url", JStr "/api/data"); ("method", JStr "GET")])]]
          !! j = Some ds' →
          get ds' "id" ≠ Ok (JStr "bare")) →
       pp_dataSources page !! "bare" = Some JNull).
Proof.
  apply (static_source_without_data_is_null sources_page [] (mkValidationResult true [])
           _ 2 _ (JObj [("url", JStr "/api/data"); ("method", JStr "GET")]));
    vm_compute; reflexivity.
Defined.

Example static_source_without_data_sample :
  (page ← parsePageConfig sources_page [];
   Ok (pp_dataSources page !! "staticData", pp_dataSources page !! "apiData",
       pp_dataSources page !! "bare"))
  = Ok (Some (JArr [JNum 1; JNum 2; JNum 3]), Some JNull, Some JNull).
Proof. vm_compute. reflexivity. Qed.

(** ** Errors on a component's [type] and [props] *)

Lemma append_empty_r (s : string) : s +:+ "" = s.
Proof.
  induction s as [|c s IH]; [done|].
  change (String c (s +:+ "") = String c s). by rewrite IH.
Qed.

Lemma append_assoc (s1 s2 s3 : string) : (s1 +:+ s2) +:+ s3 = s1 +:+ (s2 +:+ s3).
Proof.
  induction s1 as [|c s1 IH]; [done|].
  change (String c ((s1 +:+ s2) +:+ s3) = String c (s1 +:+ (s2 +:+ s3))).
  by rewrite IH.
Qed.

Lemma validateComponentConfig_object config path :
  truthy config = true → typeof config = "object" →
  ∃ more,
    validateComponentConfig config path = Ok (own_errors config path ++ more)
    ∧ ∀ e, e ∈ more →
        e = mkValidationError (path +:+ ".children") "子组件必须是数组" "INVALID_TYPE"
        ∨ ∃ (k : nat) x es,
            validateComponentConfig x (path +:+ ".children[" +:+ pretty k +:+ "]") = Ok es
                    ∧ depth x < depth config ∧ e ∈ es.
Proof.
  intros Htruthy Htype.
  rewrite validateComponentConfig_unfold. unfold validateComponentConfig_body.
  rewrite Htruthy, Htype. simpl. rewrite !get_truthy by done. simpl.
  destruct (prop config "children") as [| | | | |items|] eqn:Hchildren; simpl;
    try (eexists [_]; split; [reflexivity|]; intros e He;
         apply list_elem_of_singleton in He as ->; by left).
  { exists []. split; [by rewrite app_nil_r|]. by intros e ?%not_elem_of_nil. }
  destruct (forEach_appending_total
              (λ index child, validateComponentConfig child (path +:+ ".children[" +:+ pretty index +:+ "]"))
              items (λ i x _, validateComponentConfig_total x _) 0 (own_errors config path))
    as [out Hout].
  pose proof Hout as (more & -> & Hmore)%forEach_appending_more.
  exists more. split; [exact Hout|].
  intros e (k & x & es & Hk & Hes & He)%Hmore. right. exists (0 + k), x, es.
  split; [done|]. split; [|done].
  assert (get config "children" = Ok (JArr items)) as Hget
    by (by rewrite get_truthy, Hchildren).
  apply list_elem_of_lookup_2, depth_elem in Hk. apply depth_get_array in Hget. lia.
Qed.

Lemma elem_of_if_push (c : bool) errors path message code e :
  e ∈ (if c then push errors path message code else errors) →
  e ∈ errors ∨ c = true ∧ e = mkValidationError path message code.
Proof.
  destruct c; [|by left]. unfold push.
  intros [?|He]%elem_of_app; [by left|].
  apply list_elem_of_singleton in He as ->. by right.
Qed.

(** The errors of a node itself: which they are and when they are raised. *)
Lemma own_errors_elem config path e :
  e ∈ own_errors config path →
  ve_path e = path +:+ ".id"
  ∨ (ve_path e = path +:+ ".type" ∧ ve_code e = "REQUIRED_FIELD"
     ∧ negb (truthy (prop config "type"))
       || negb (typeof (prop config "type") =? "string") = true)
  ∨ (ve_path e = path +:+ ".type" ∧ ve_code e = "UNSUPPORTED_TYPE"
     ∧ negb (truthy (prop config "type"))
       || negb (typeof (prop config "type") =? "string") = false)
  ∨ ve_path e = path +:+ ".props".
Proof.
  unfold own_errors.
  intros [He|[_ ->]]%elem_of_if_push; [|by right; right; right].
  destruct (negb (truthy (prop config "type"))
            || negb (typeof (prop config "type") =? "string")) eqn:Htype.
  - apply (elem_of_if_push true) in He as [He|[_ ->]]; [|by right; left].
    apply elem_of_if_push in He as [He|[_ ->]]; [|by left].
    by apply not_elem_of_nil in He.
  - apply elem_of_if_push in He as [He|[_ ->]]; [|by right; right; left].
    apply elem_of_if_push in He as [He|[_ ->]]; [|by left].
    by apply not_elem_of_nil in He.
Qed.

Lemma own_errors_path config path e :
  e ∈ own_errors config path →
  ve_path e = path +:+ ".id" ∨ ve_path e = path +:+ ".type" ∨ ve_path e = path +:+ ".props".
Proof.
  intros [?|[(? & _)|[(? & _)|?]]]%own_errors_elem; auto.
Qed.

(** Every error carries a path below the path it was validated at. *)
Lemma validateComponentConfig_error_paths config :
  ∀ path errors e,
    validateComponentConfig config path = Ok errors → e ∈ errors →
    ∃ rest, ve_path e = path +:+ rest.
Proof.
  induction config as [config IH] using depth_ind. intros path errors e Hrun He.
  destruct (negb (truthy config) || negb (typeof config =? "object")) eqn:Hguard.
  - rewrite validateComponentConfig_unfold in Hrun.
    unfold validateComponentConfig_body in Hrun. rewrite Hguard in Hrun.
    injection Hrun as <-. apply list_elem_of_singleton in He as ->.
    exists "". by rewrite append_empty_r.
  - assert (truthy config = true ∧ typeof config = "object") as [Htruthy Htype]
      by (apply guard_object in Hguard as [[? [? ->]]|[? [? ->]]]; done).
    destruct (validateComponentConfig_object config path Htruthy Htype)
      as (more & Hmore & Hpaths).
    rewrite Hmore in Hrun. injection Hrun as <-.
    apply elem_of_app in He as [Hown|Hchild].
    + apply own_errors_path in Hown as [-> | [-> | ->]]; eauto.
    + apply Hpaths in Hchild as [->|(k & x & es & Hes & Hx & Hin)]; [by eexists|].
      destruct (IH x Hx _ _ _ Hes Hin) as [rest ->].
      exists (".children[" +:+ pretty k +:+ "]" +:+ rest).
      by rewrite !append_assoc.
Qed.

Lemma isComponentTypeSupported_false (type : string) :
  isComponentTypeSupported type = false ↔ type ∉ SUPPORTED_COMPONENT_TYPES.
Proof.
  unfold isComponentTypeSupported, componentTypeSet.
  by rewrite bool_decide_eq_false, elem_of_list_to_set.
Qed.

Lemma elem_of_own_errors_type config path (c : bool) :
  negb (truthy (prop config "type"))
  || negb (typeof (prop config "type") =? "string") = c →
  (c = false → set_has componentTypeSet (prop config "type") = false) →
  ∃ e, e ∈ own_errors config path
       ∧ ve_path e = path +:+ ".type"
       ∧ ve_code e = if c then "REQUIRED_FIELD" else "UNSUPPORTED_TYPE".
Proof.
  intros Hc Hset. unfold own_errors. rewrite Hc.
  destruct c.
  - eexists (mkValidationError _ _ _). split; [|done]. unfold push.
    destruct (negb (strict_eq _ _) && _); rewrite !elem_of_app, !list_elem_of_singleton; auto.
  - rewrite Hset by done. simpl.
    eexists (mkValidationError _ _ _). split; [|done]. unfold push.
    destruct (negb (strict_eq _ _) && _); rewrite !elem_of_app, !list_elem_of_singleton; auto.
Qed.

(** C6, as the code has it.  A component config whose [type] is a non-empty
    string outside the registry gets an [UNSUPPORTED_TYPE] error at
    [{path}.type], and [isComponentTypeSupported] is false on that string; an
    object config whose [type] is missing, empty or not a string gets
    [REQUIRED_FIELD] there instead; and no run raises both codes at
    [{path}.type]. *)
Theorem validateComponentConfig_type_errors (config : JsValue) (path : string) :
  ∃ errors,
    validateComponentConfig config path = Ok errors
    ∧ (∀ type,
         get config "type" = Ok (JStr type) → type ≠ "" →
         type ∉ SUPPORTED_COMPONENT_TYPES →
         isComponentTypeSupported type = false
         ∧ ∃ e, e ∈ errors ∧ ve_path e = path +:+ ".type"
                ∧ ve_code e = "UNSUPPORTED_TYPE")
    ∧ (truthy config = true → typeof config = "object" →
       (∀ type, get config "type" = Ok (JStr type) → type = "") →
       ∃ e, e ∈ errors ∧ ve_path e = path +:+ ".type" ∧ ve_code e = "REQUIRED_FIELD")
    ∧ ¬ (∃ e1 e2,
           e1 ∈ errors ∧ e2 ∈ errors
           ∧ ve_path e1 = path +:+ ".type" ∧ ve_path e2 = path +:+ ".type"
           ∧ ve_code e1 = "REQUIRED_FIELD" ∧ ve_code e2 = "UNSUPPORTED_TYPE").
Proof.
  destruct (negb (truthy config) || negb (typeof config =? "object")) eqn:Hguard.
  - (* not an object: a single INVALID_CONFIG error *)
    exists [mkValidationError path "组件配置必须是对象" "INVALID_CONFIG"].
    split; [|split; [|split]].
    + rewrite validateComponentConfig_unfold. unfold validateComponentConfig_body.
      by rewrite Hguard.
    + intros type Htype. exfalso. by destruct config.
    + intros Htruthy Htype. by rewrite Htruthy, Htype in Hguard.
    + intros (e1 & e2 & ->%list_elem_of_singleton & _ & _ & _ & ? & _). done.
  - assert (truthy config = true ∧ typeof config = "object") as [Htruthy Htypeof]
      by (apply guard_object in Hguard as [[? [? ->]]|[? [? ->]]]; done).
    destruct (validateComponentConfig_object config path Htruthy Htypeof)
      as (more & Hrun & Hmore).
    exists (own_errors config path ++ more). split; [done|]. split; [|split].
    + intros type Htype Hnonempty Hunsupported.
      rewrite get_truthy in Htype by done. injection Htype as Htype.
      apply isComponentTypeSupported_false in Hunsupported as Hfalse.
      split; [done|].
      destruct (elem_of_own_errors_type config path false) as (e & He & Hpath & Hcode).
      * rewrite Htype. simpl. by destruct type.
      * intros _. by rewrite Htype.
      * exists e. rewrite elem_of_app. auto.
    + intros _ _ Hmissing.
      destruct (elem_of_own_errors_type config path true) as (e & He & Hpath & Hcode).
      * destruct (prop config "type") as [| |[]|n|type| |] eqn:Htype; try done.
        -- simpl. by destruct (n =? 0)%Z.
        -- rewrite (Hmissing type); [done|]. by rewrite get_truthy, Htype.
      * done.
      * exists e. rewrite elem_of_app. auto.
    + intros (e1 & e2 & He1 & He2 & Hp1 & Hp2 & Hc1 & Hc2).
      assert (∀ e, e ∈ more → ve_path e ≠ path +:+ ".type") as Hchild.
      { intros e [->|(k & x & es & Hes & _ & Hin)]%Hmore Hpath.
        - by apply String.app_inj in Hpath.
        - destruct (validateComponentConfig_error_paths _ _ _ _ Hes Hin) as [rest Hrest].
          rewrite Hrest, !append_assoc in Hpath. by apply String.app_inj in Hpath. }
      apply elem_of_app in He1 as [He1|He1]; [|by apply Hchild in He1].
      apply elem_of_app in He2 as [He2|He2]; [|by apply Hchild in He2].
      apply own_errors_elem in He1 as [He1|[(_ & _ & He1)|[(_ & He1 & _)|He1]]];
        [rewrite Hp1 in He1; by apply String.app_inj in He1| |congruence|
         rewrite Hp1 in He1; by apply String.app_inj in He1].
      apply own_errors_elem in He2 as [He2|[(_ & He2 & _)|[(_ & _ & He2)|He2]]];
        [rewrite Hp2 in He2; by apply String.app_inj in He2|congruence|congruence|
         rewrite Hp2 in He2; by apply String.app_inj in He2].
Qed.

(** C6 as stated fails on the empty string: it is a string outside the
    registry, yet the error at [{path}.type] is [REQUIRED_FIELD] and no
    [UNSUPPORTED_TYPE] error is raised. *)
Lemma empty_type_not_reported_unsupported :
  get empty_type_component "type" = Ok (JStr "")
  ∧ ("" ∉ SUPPORTED_COMPONENT_TYPES)
  ∧ isComponentTypeSupported "" = false
  ∧ ∃ errors,
      validateComponentConfig empty_type_component "components[0]" = Ok errors
      ∧ ¬ ∃ e, e ∈ errors ∧ ve_code e = "UNSUPPORTED_TYPE".
Proof.
  split; [done|]. split; [by apply isComponentTypeSupported_false|].
  split; [done|]. eexists. split; [vm_compute; reflexivity|].
  intros (e & He & Hcode). apply list_elem_of_singleton in He as ->. done.
Qed.

(** An unsupported non-empty type and a missing type, side by side. *)
Example type_errors_sample :
  validateComponentConfig
    (JObj [("id", JStr "a"); ("type", JStr "Unknown");
           ("children", JArr [JObj [("id", JStr "b")]])]) "test"
  = Ok [mkValidationError "test.type" "不支持的组件类型: Unknown" "UNSUPPORTED_TYPE";
        mkValidationError "test.children[0].type" "组件类型是必填的字符串" "REQUIRED_FIELD"].
Proof. vm_compute. reflexivity. Qed.

(** C8 at [props: null]: the field is present and [null] is not an object,
    yet the validator raises no error at all, because [typeof null] is
    ['object']. *)
Theorem validateComponentConfig_accepts_null_props :
  has_in "props" null_props_component = Ok true
  ∧ get null_props_component "props" = Ok JNull
  ∧ validateComponentConfig null_props_component "components[0]" = Ok [].
Proof. repeat split; vm_compute; reflexivity. Qed.

(** Any other present value that is not an object is rejected. *)
Lemma validateComponentConfig_rejects_primitive_props config path props :
  truthy config = true → typeof config = "object" →
  get config "props" = Ok props →
  props ≠ JUndefined → typeof props ≠ "object" →
  ∃ errors,
    validateComponentConfig config path = Ok errors
    ∧ mkValidationError (path +:+ ".props") "组件属性必须是对象" "INVALID_TYPE" ∈ errors.
Proof.
  intros Htruthy Htypeof Hprops Hdefined Hprimitive.
  destruct (validateComponentConfig_object config path Htruthy Htypeof)
    as (more & Hrun & _).
  eexists. split; [done|]. apply elem_of_app. left.
  rewrite get_truthy in Hprops by done. injection Hprops as Hprops.
  unfold own_errors. rewrite Hprops.
  assert (negb (strict_eq props JUndefined) && negb (typeof props =? "object") = true)
    as -> by (by destruct props).
  unfold push. apply elem_of_app. right. left.
Qed.

(** ** Binding resolution *)

Lemma own_field_NoDup (fields : list (string * JsValue)) key v :
  NoDup fields.*1 → own_field fields key = Some v ↔ (key, v) ∈ fields.
Proof.
  induction fields as [|[k w] fields IH]; simpl.
  { intros _. split; [done|by intros ?%not_elem_of_nil]. }
  intros [Hfresh Hrest]%NoDup_cons. rewrite elem_of_cons.
  destruct (k =? key) eqn:Hkey.
  - apply String.eqb_eq in Hkey as ->. split; [intros [= ->]; by left|].
    intros [[= ->]|Hin]; [done|]. destruct Hfresh.
    apply list_elem_of_fmap. by exists (key, v).
  - apply String.eqb_neq in Hkey. rewrite IH by done.
    split; [by right|]. intros [[= ? ?]|?]; [congruence|done].
Qed.

(** Reading a key of [Object.fromEntries(map)] is [map.get(key)]. *)
Lemma own_property_fromEntries (m : gmap string JsValue) key :
  own_property (fromEntries m) key = m !! key.
Proof.
  apply option_eq. intros v. simpl.
  rewrite own_field_NoDup by apply NoDup_fst_map_to_list.
  apply elem_of_map_to_list.
Qed.

Lemma split_dot_nonempty expression : split_dot expression ≠ [].
Proof.
  induction expression as [|c rest IH]; simpl; [done|].
  destruct (Ascii.eqb c _); [done|]. by destruct (split_dot rest).
Qed.

Lemma resolve_parts_undefined context parts :
  resolve_parts context parts (AtValue JUndefined) = Ok (AtValue JUndefined).
Proof. by destruct parts. Qed.

Lemma object_prototype_property_not_context above part next :
  above ≠ AtContext → object_prototype_property above part = Some next →
  next ≠ AtContext.
Proof.
  unfold object_prototype_property. intros Habove.
  destruct (part =? "__proto__"); [by intros [= <-]|].
  destruct (bool_decide _); by intros [= <-].
Qed.

Lemma array_prototype_property_not_context above part next :
  above ≠ AtContext → array_prototype_property above part = Some next →
  next ≠ AtContext.
Proof.
  unfold array_prototype_property. intros Habove.
  destruct (part =? "length"); [by intros [= <-]|].
  destruct (bool_decide _); [by intros [= <-]|].
  by apply object_prototype_property_not_context.
Qed.

Lemma segment_not_context context value part next :
  segment context value part = Some next → next ≠ AtContext.
Proof.
  destruct value as [|v|p|holder name]; simpl; [| | |done].
  - destruct (part =? "dataSources"); [by intros [= <-]|].
    destruct (part =? "formData"); [by intros [= <-]|].
    destruct (part =? "params"); [by intros [= <-]|].
    by apply object_prototype_property_not_context.
  - destruct v as [| |b|n|s|items|fields]; try done; unfold find_property;
      destruct (own_property _ _); try (by intros [= <-]).
    + by apply array_prototype_property_not_context.
    + by apply object_prototype_property_not_context.
  - destruct p; simpl.
    + by apply object_prototype_property_not_context.
    + by apply array_prototype_property_not_context.
Qed.

(** One round of the loop: a present segment is followed, anything else ends
    the resolution with [undefined]. *)
Lemma resolve_parts_step context value part rest :
  (∃ next, segment context value part = Some next
           ∧ resolve_parts context (part :: rest) value
             = resolve_parts context rest next)
  ∨ (segment context value part = None
     ∧ resolve_parts context (part :: rest) value = Ok (AtValue JUndefined)).
Proof.
  destruct value as [|v|p|holder name]; simpl.
  - destruct (part =? "dataSources") eqn:Hsources; [left; eauto|].
    unfold context_property.
    destruct (part =? "formData") eqn:Hform; [left; eauto|].
    destruct (part =? "params") eqn:Hparams; [left; eauto|].
    destruct (object_prototype_property _ part) as [next|]; simpl; [left; eauto|].
    right. split; [done|]. apply resolve_parts_undefined.
  - destruct v as [| |b|n|s|items|fields]; simpl; try (by right).
    + destruct (find_property (JArr items) part) as [next|]; simpl; [left; eauto|].
      right. split; [done|]. apply resolve_parts_undefined.
    + destruct (find_property (JObj fields) part) as [next|]; simpl; [left; eauto|].
      right. split; [done|]. apply resolve_parts_undefined.
  - destruct (find_prototype_property p part) as [next|]; simpl; [left; eauto|].
    right. split; [done|]. apply resolve_parts_undefined.
  - by right.
Qed.

Lemma resolve_parts_spec context parts : ∀ value,
  ∃ result,
    resolve_parts context parts value = Ok result
    ∧ (value ≠ AtContext ∨ parts ≠ [] → result ≠ AtContext)
    ∧ (∀ final, reaches context value parts final → final = result)
    ∧ ((∀ final, ¬ reaches context value parts final) → result = AtValue JUndefined).
Proof.
  induction parts as [|part rest IH]; intros value.
  { exists value. simpl. split; [done|]. split; [by intros [?|?]|].
    split; [by inversion 1|].
    intros Hnone. destruct (Hnone value). constructor. }
  destruct (resolve_parts_step context value part rest)
    as [(next & Hsegment & ->)|[Hsegment ->]].
  - destruct (IH next) as (result & Hrun & Hvalue & Hreach & Hnone).
    exists result. split; [done|]. split; [|split].
    + intros _. apply Hvalue. left. by eapply segment_not_context.
    + inversion 1; subst. apply Hreach. congruence.
    + intros Hno. apply Hnone. intros final Hfinal.
      apply (Hno final). by econstructor.
  - exists (AtValue JUndefined). split; [done|]. split; [done|]. split; [|done].
    inversion 1; subst. congruence.
Qed.

(** C9. [resolveBinding] returns normally for every expression and context.
    When every segment of the dotted path is present, each read from an
    object as its own or as an inherited property, the result is what the
    path reaches; when some segment is missing, or an intermediate value is
    [null], [undefined] or not an object, the result is [undefined].  The
    result is never the context object itself. *)
Theorem resolveBinding_never_throws (expression : string) (context : DataContext) :
  ∃ result,
    resolveBinding expression context = Ok result
    ∧ result ≠ AtContext
    ∧ (∀ final,
         reaches context AtContext (split_dot expression) final →
         final = result)
    ∧ ((∀ final, ¬ reaches context AtContext (split_dot expression) final) →
       result = AtValue JUndefined).
Proof.
  unfold resolveBinding.
  destruct (resolve_parts_spec context (split_dot expression) AtContext)
    as (result & Hrun & Hvalue & Hreach & Hnone).
  exists result. split; [done|]. split; [|done].
  apply Hvalue. right. apply split_dot_nonempty.
Qed.

Example resolveBinding_samples :
  resolveBinding "dataSources.orders.0.code" sample_context = Ok (AtValue (JStr "WO-1"))
  ∧ resolveBinding "dataSources.orders.1.code" sample_context = Ok (AtValue JUndefined)
  ∧ resolveBinding "dataSources.orders.length" sample_context = Ok (AtValue (JNum 2))
  ∧ resolveBinding "formData.name.length" sample_context = Ok (AtValue JUndefined)
  ∧ resolveBinding "formData.qty" sample_context = Ok (AtValue (JNum 0))
  ∧ resolveBinding "missing.deep.path" sample_context = Ok (AtValue JUndefined)
  ∧ resolveBinding "" sample_context = Ok (AtValue JUndefined).
Proof. repeat split; vm_compute; reflexivity. Qed.

(** The keys that the validator, the parser and the collectors read are
    not inherited by objects or arrays. *)
Example fixed_keys_not_inherited :
  Forall (λ key, find_property (JObj []) key = None
                 ∧ find_property (JArr []) key = None)
    [ "id"; "type"; "props"; "children"; "visible"; "permission"; "pageCode";
      "title"; "components"; "dataSource"; "config"; "data"; "dataBinding";
      "source"; "field"; "events" ].
Proof. repeat constructor. Qed.

Example resolveBinding_inherited :
  resolveBinding "formData.toString" sample_context
  = Ok (AtFunction ObjectPrototype "toString")
  ∧ resolveBinding "formData.toString.name" sample_context = Ok (AtValue JUndefined)
  ∧ resolveBinding "formData.__proto__" sample_context = Ok (AtPrototype ObjectPrototype)
  ∧ resolveBinding "formData.__proto__.__proto__" sample_context = Ok (AtValue JNull)
  ∧ resolveBinding "formData.__proto__.__proto__.x" sample_context = Ok (AtValue JUndefined)
  ∧ resolveBinding "dataSources.constructor" sample_context
    = Ok (AtFunction ObjectPrototype "constructor")
  ∧ resolveBinding "dataSources.orders.map" sample_context
    = Ok (AtFunction ArrayPrototype "map")
  ∧ resolveBinding "dataSources.orders.__proto__.length" sample_context
    = Ok (AtValue (JNum 0))
  ∧ resolveBinding "dataSources.orders.__proto__.__proto__.__proto__" sample_context
    = Ok (AtValue JNull)
  ∧ resolveBinding "hasOwnProperty" sample_context
    = Ok (AtFunction ObjectPrototype "hasOwnProperty").
Proof. repeat split; vm_compute; reflexivity. Qed.

(** ** Data bindings in traversal order *)

Lemma forEach_cons {St} (body : nat → JsValue → St → Outcome St) i x rest st st' out :
  body i x st = Ok st' →
  forEach body (S i) rest st' = out →
  forEach body i (x :: rest) st = out.
Proof. intros Hx Hrest. simpl. by rewrite Hx. Qed.

Lemma collectBindings_spec components :
  ∀ comps nested (bindings : gmap string (list JsValue)),
    components = JArr comps →
    Forall2 component_bindings comps nested →
    collectBindings components bindings
    = Ok (foldl add_binding bindings (concat nested)).
Proof.
  induction components as [components IH] using depth_ind.
  intros comps nested bindings -> Hall.
  rewrite collectBindings_unfold. unfold collectBindings_body. simpl.
  assert (∀ x, x ∈ comps → depth x < depth (JArr comps)) as Hdepth
    by (intros; by apply depth_elem).
  remember (depth (JArr comps)) as bound eqn:Hbound. clear Hbound.
  revert Hdepth. generalize 0 as index. revert bindings.
  induction Hall as [|comp pairs rest nested Hcomp Hall IHall];
    intros bindings index Hdepth; [done|].
  destruct Hcomp as [comp own children nested' Hown Hchildren Hnested].
  eapply forEach_cons; [|rewrite concat_cons, foldl_app; apply IHall].
  2: { intros x Hx. apply Hdepth. by right. }
  assert (∀ st, (children' ← get comp "children";
                 if truthy children' then collectBindings children' st else Ok st)
                = Ok (foldl add_binding st (concat nested'))) as Hsubtree.
  { intros st. destruct Hchildren as [Hnone|children Hsome].
    - rewrite Hnone. simpl. by inversion Hnested.
    - rewrite Hsome. simpl.
      apply (IH (JArr children)) with (comps := children); [|done..].
      apply depth_get_array in Hsome.
      assert (depth comp < bound) by (apply Hdepth; left).
      lia. }
  rewrite foldl_app.
  destruct Hown as [Hnone|dataBinding source field Hget Hsource Hfield].
  - rewrite Hnone. simpl. apply Hsubtree.
  - rewrite Hget. simpl.
    assert (truthy dataBinding = true) as -> by (by destruct dataBinding).
    rewrite Hsource, Hfield. simpl. apply Hsubtree.
Qed.

Lemma lookup_add_binding (bindings : gmap string (list JsValue)) pair source :
  add_binding bindings pair !! source
  = if decide (pair.1 = source)
    then Some (default [] (bindings !! source) ++ [pair.2])
    else bindings !! source.
Proof.
  unfold add_binding. destruct (decide (pair.1 = source)) as [<-|Hother].
  - rewrite lookup_alter_eq.
    destruct (bindings !! pair.1) as [fields|] eqn:Hfields; simpl.
    + by rewrite Hfields.
    + by rewrite lookup_insert_eq.
  - rewrite lookup_alter_ne by done.
    destruct (negb _); [by rewrite lookup_insert_ne|done].
Qed.

Lemma lookup_foldl_add_binding pairs : ∀ (bindings : gmap string (list JsValue)) source,
  foldl add_binding bindings pairs !! source
  = match bindings !! source, fields_bound_to source pairs with
    | None, [] => None
    | before, fields => Some (default [] before ++ fields)
    end.
Proof.
  unfold fields_bound_to.
  induction pairs as [|pair pairs IH]; intros bindings source; simpl.
  { destruct (bindings !! source); simpl; [by rewrite app_nil_r|done]. }
  rewrite IH, lookup_add_binding.
  destruct (decide (pair.1 = source)) as [Hsame|Hother].
  - rewrite filter_cons_True by done. rewrite fmap_cons.
    generalize ((filter (λ p : string * JsValue, p.1 = source) pairs).*2) as fields.
    intros fields. destruct (bindings !! source), fields; simpl;
      by rewrite <- ?app_assoc.
  - by rewrite filter_cons_False.
Qed.

(** C7. For a config whose component tree carries well-formed bindings,
    [getDataBindings] returns a map that holds, under each source id, exactly
    the fields bound to that source in the tree, nested children included, in
    depth-first order with children in array order; a source no component is
    bound to has no entry. *)
Theorem getDataBindings_in_traversal_order
    (config : JsValue) (comps : list JsValue) (nested : list (list (string * JsValue))) :
  get config "components" = Ok (JArr comps) →
  Forall2 component_bindings comps nested →
  ∃ bindings,
    getDataBindings config = Ok bindings
    ∧ ∀ source,
        bindings !! source
        = match fields_bound_to source (concat nested) with
          | [] => None
          | fields => Some fields
          end.
Proof.
  intros Hcomps Hall. unfold getDataBindings. rewrite Hcomps. simpl.
  rewrite (collectBindings_spec _ comps nested) by done.
  eexists. split; [done|]. intros source.
  rewrite lookup_foldl_add_binding, lookup_empty. by destruct (fields_bound_to _ _).
Qed.

Lemma getDataBindings_in_traversal_order_witness :
  ∃ bindings,
    getDataBindings bound_page = Ok bindings
    ∧ ∀ source,
        bindings !! source
        = match fields_bound_to source
                  (concat [ [("form", JStr "name"); ("list", JStr "items")];
                            [("form", JStr "age")] ]) with
          | [] => None
          | fields => Some fields
          end.
Proof.
  eapply getDataBindings_in_traversal_order; [vm_compute; reflexivity|].
  constructor; [|constructor; [|constructor]].
  - eapply (component_bindings_node _ [("form", JStr "name")] _ [[("list", JStr "items")]]).
    + by eapply own_binding_some.
    + by apply component_children_some.
    + constructor; [|constructor].
      apply (component_bindings_node _ [("list", JStr "items")] [] []).
      * by eapply own_binding_some.
      * by apply component_children_none.
      * constructor.
  - apply (component_bindings_node _ [("form", JStr "age")] [] []).
    + by eapply own_binding_some.
    + by apply component_children_none.
    + constructor.
Defined.

Example getDataBindings_sample :
  (bindings ← getDataBindings bound_page; Ok (bindings !! "form", bindings !! "list"))
  = Ok (Some [JStr "name"; JStr "age"], Some [JStr "items"]).
Proof. vm_compute. reflexivity. Qed.

(** * Further properties of the page builder *)

(** ** What the validators accept *)

(** [validateComponentConfig] on an object, as one equation. *)
Lemma validateComponentConfig_object_eq config path :
  truthy config = true → typeof config = "object" →
  validateComponentConfig config path
  = match prop config "children" with
    | JUndefined => Ok (own_errors config path)
    | JArr items =>
        forEach (appending (λ index child,
                   validateComponentConfig child
                     (path +:+ ".children[" +:+ pretty index +:+ "]")))
                0 items (own_errors config path)
    | _ => Ok (push (own_errors config path) (path +:+ ".children")
                 "子组件必须是数组" "INVALID_TYPE")
    end.
Proof.
  intros Htruthy Htype.
  rewrite validateComponentConfig_unfold. unfold validateComponentConfig_body.
  rewrite Htruthy, Htype. simpl. rewrite !get_truthy by done. simpl.
  by destruct (prop config "children").
Qed.

Lemma forEach_appending_all_nil f arr : ∀ i errors,
  (∀ k x, arr !! k = Some x → f (i + k) x = Ok []) →
  forEach (appending f) i arr errors = Ok errors.
Proof.
  induction arr as [|x arr IH]; intros i errors Hall; simpl; [done|].
  assert (appending f i x errors = Ok errors) as ->.
  { unfold appending. rewrite <- (Nat.add_0_r i), (Hall 0 x) by done.
    simpl. by rewrite app_nil_r. }
  simpl. apply IH. intros k y Hk. rewrite Nat.add_succ_l, <- Nat.add_succ_r.
  by apply Hall.
Qed.

Lemma own_errors_nil config path :
  own_errors config path = [] ↔
  (∃ id, prop config "id" = JStr id ∧ id ≠ "")
  ∧ (∃ type, prop config "type" = JStr type ∧ isComponentTypeSupported type = true)
  ∧ (prop config "props" = JUndefined ∨ typeof (prop config "props") = "object").
Proof.
  unfold own_errors. split.
  - intros Hnil.
    apply if_push_nil in Hnil as [Hprops Hnil].
    destruct (negb (truthy (prop config "type"))
              || negb (typeof (prop config "type") =? "string")) eqn:Htype;
      [by apply push_not_nil in Hnil|].
    destruct (negb (set_has componentTypeSet (prop config "type"))) eqn:Hset;
      [by apply push_not_nil in Hnil|].
    apply if_push_nil in Hnil as [Hid _].
    split; [|split].
    + destruct (prop config "id") as [| |[]|n|id| |]; simpl in Hid; try done.
      * by destruct (n =? 0)%Z.
      * exists id. split; [done|]. by intros ->.
    + destruct (prop config "type") as [| |[]|n|type| |]; simpl in *; try done.
      exists type. split; [done|]. by apply negb_false_iff in Hset.
    + destruct (prop config "props") as [| |[]|n|s| |]; simpl in *; try done; auto.
  - intros ((id & -> & Hid) & (type & -> & Htype) & Hprops). simpl.
    assert (negb (negb (id =? "")) || false = false) as ->.
    { apply String.eqb_neq in Hid. by rewrite Hid. }
    assert (negb (negb (type =? "")) || false = false) as ->.
    { destruct (type =? "") eqn:Hempty; [|done].
      apply String.eqb_eq in Hempty as ->. by vm_compute in Htype. }
    unfold isComponentTypeSupported in Htype. rewrite Htype. simpl.
    destruct Hprops as [->|Hobject]; [done|].
    by destruct (prop config "props").
Qed.

Lemma validateComponentConfig_nil_well_formed config :
  ∀ path, validateComponentConfig config path = Ok [] → well_formed_component config.
Proof.
  induction config as [config IH] using depth_ind. intros path Hrun.
  pose proof Hrun as [Htruthy Hchildren]%validateComponentConfig_nil_inv.
  assert (typeof config = "object") as Htype.
  { rewrite validateComponentConfig_unfold in Hrun.
    unfold validateComponentConfig_body in Hrun.
    destruct (negb (truthy config) || negb (typeof config =? "object")) eqn:Hguard;
      [by injection Hrun|].
    by apply guard_object in Hguard as [[_ [? ->]]|[_ [? ->]]]. }
  destruct (validateComponentConfig_object config path Htruthy Htype)
    as (more & Hmore & _).
  rewrite Hrun in Hmore. injection Hmore as Hmore. symmetry in Hmore.
  apply app_eq_nil in Hmore as [Hown _].
  apply own_errors_nil in Hown
    as ((id & Hid & ?) & (type & Htype' & ?) & Hprops).
  eapply (well_formed_component_intro config id type); try done.
  all: rewrite ?get_truthy by done; try by f_equal.
  destruct Hchildren as [->|(items & Hitems & Hall)]; [by left|].
  right. exists items. split; [by rewrite Hitems|].
  apply Forall_forall. intros x Hx. destruct (Hall x Hx) as [path' Hpath'].
  apply (IH x) in Hpath'; [done|].
  assert (get config "children" = Ok (JArr items)) as Hget
    by (by rewrite get_truthy, Hitems).
  apply depth_elem in Hx. apply depth_get_array in Hget. lia.
Qed.

Lemma well_formed_validateComponentConfig config :
  ∀ path, well_formed_component config → validateComponentConfig config path = Ok [].
Proof.
  induction config as [config IH] using depth_ind. intros path Hwf.
  destruct Hwf as [config id type props Hid ? Htype ? Hprops Hobj Hchildren].
  assert (truthy config = true ∧ typeof config = "object") as [Htruthy Htypeof]
    by (by destruct config).
  rewrite validateComponentConfig_object_eq by done.
  rewrite !get_truthy in * by done.
  injection Hid as Hid. injection Htype as Htype. injection Hprops as Hprops.
  assert (own_errors config path = []) as ->.
  { apply own_errors_nil. rewrite Hid, Htype, Hprops. eauto 10. }
  destruct Hchildren as [[= ->]|(children & [= Hch] & Hall)]; [done|].
  rewrite Hch. apply forEach_appending_all_nil.
  intros k x Hk. apply IH.
  - assert (get config "children" = Ok (JArr children)) as Hget
      by (by rewrite get_truthy, Hch).
    apply list_elem_of_lookup_2, depth_elem in Hk. apply depth_get_array in Hget. lia.
  - rewrite Forall_forall in Hall. by eapply Hall, list_elem_of_lookup_2.
Qed.

(** X1. [validateComponentConfig] returns the empty error list exactly on
    the well-formed component configs, whatever the path it is given. *)
Theorem validateComponentConfig_accepts_iff (config : JsValue) (path : string) :
  validateComponentConfig config path = Ok [] ↔ well_formed_component config.
Proof.
  split.
  - apply validateComponentConfig_nil_well_formed.
  - apply well_formed_validateComponentConfig.
Qed.

Lemma includes_validTypes v :
  includes validTypes v = true ↔ ∃ type, v = JStr type ∧ type ∈ validTypes.
Proof.
  unfold includes, validTypes. simpl. split.
  - destruct v as [| | | |type| |]; simpl; try done. intros Hany.
    exists type. split; [done|].
    repeat (apply orb_true_iff in Hany as [->%String.eqb_eq|Hany]; [set_solver|]).
    done.
  - intros (type & -> & Hin). simpl.
    repeat (apply elem_of_cons in Hin as [->|Hin]; [by rewrite ?orb_true_r|]).
    by apply not_elem_of_nil in Hin.
Qed.

Lemma validateDataSourceConfig_nil_well_formed ds path :
  validateDataSourceConfig ds path = Ok [] → well_formed_source ds.
Proof.
  intros (Htruthy & (id & Hid & ?) & Htype & Hcfg)%validateDataSourceConfig_nil_inv.
  apply includes_validTypes in Htype as (type & Htype & ?).
  exists id, type, (prop ds "config"). rewrite !get_truthy by done.
  rewrite Hid, Htype. repeat split; try done.
  all: by destruct Hcfg as [[? ->]|[? ->]].
Qed.

Lemma well_formed_validateDataSourceConfig ds path :
  well_formed_source ds → validateDataSourceConfig ds path = Ok [].
Proof.
  intros (id & type & cfg & Hid & Hne & Htype & Hin & Hcfg & Htruthy & Hobject).
  assert (truthy ds = true ∧ typeof ds = "object") as [Hds Htypeof]
    by (by destruct ds).
  unfold validateDataSourceConfig. rewrite Hds, Htypeof, Hid, Htype, Hcfg. simpl.
  apply String.eqb_neq in Hne. rewrite Hne. simpl.
  assert (includes validTypes (JStr type) = true) as Hinc
    by (apply includes_validTypes; eauto).
  assert ((type =? "") = false) as ->.
  { apply String.eqb_neq. intros ->. set_solver. }
  simpl. unfold includes in Hinc. simpl in Hinc. rewrite Hinc. simpl.
  by rewrite Htruthy, Hobject.
Qed.

(** X2. [validateDataSourceConfig] returns the empty error list exactly on
    the entries that are objects with a non-empty string [id], a [type]
    among ['api'], ['static'], ['computed'], and a non-null object [config];
    the shape of [config] is not inspected. *)
Theorem validateDataSourceConfig_accepts_iff (ds : JsValue) (path : string) :
  validateDataSourceConfig ds path = Ok [] ↔ well_formed_source ds.
Proof.
  split.
  - apply validateDataSourceConfig_nil_well_formed.
  - apply well_formed_validateDataSourceConfig.
Qed.

(** ** The report of [validatePageConfig], part by part *)

Lemma forEach_appending_concat f arr : ∀ i errors,
  (∀ k x, ∃ es, f k x = Ok es) →
  forEach (appending f) i arr errors
  = Ok (errors ++ concat (imap (λ k x, errors_of (f (i + k) x)) arr)).
Proof.
  induction arr as [|x arr IH]; intros i errors Htotal; simpl.
  { by rewrite app_nil_r. }
  destruct (Htotal i x) as [es Hes].
  assert (appending f i x errors = Ok (errors ++ es)) as ->
    by (unfold appending; by rewrite Hes).
  simpl. rewrite IH by done. rewrite Nat.add_0_r, Hes. simpl.
  rewrite <- app_assoc. do 4 f_equal.
  apply imap_ext. intros k y _. simpl. by rewrite Nat.add_succ_r.
Qed.

Lemma validatePageConfig_object_eq config :
  truthy config = true → typeof config = "object" →
  validatePageConfig config
  = let errors := page_header_errors config ++ page_components_errors config
                  ++ page_dataSource_errors config in
    Ok (mkValidationResult (length errors =? 0)%nat errors).
Proof.
  intros Htruthy Htype. unfold validatePageConfig.
  rewrite Htruthy, Htype. simpl. rewrite !get_truthy by done. simpl.
  set (header := if negb (truthy (prop config "title")) || _ then _ else _).
  assert (header = page_header_errors config) as ->.
  { unfold header, page_header_errors, push.
    by destruct (negb (truthy (prop config "pageCode")) || _),
                (negb (truthy (prop config "title")) || _). }
  assert (∀ errors,
    (if negb (isArray (prop config "components"))
     then Ok (push errors "components" "组件列表必须是数组" "INVALID_TYPE")
     else arr ← array_elements (prop config "components");
          forEach (λ index comp errors,
                     compErrors ← validateComponentConfig comp
                                    ("components[" +:+ pretty index +:+ "]");
                     Ok (errors ++ compErrors)) 0 arr errors)
    = Ok (errors ++ page_components_errors config)) as ->.
  { intros errors. unfold page_components_errors.
    destruct (prop config "components"); simpl; try done.
    apply (forEach_appending_concat
             (λ index comp, validateComponentConfig comp
                              ("components[" +:+ pretty index +:+ "]"))).
    intros. apply validateComponentConfig_total. }
  simpl.
  assert (∀ errors,
    (if negb (strict_eq (prop config "dataSource") JUndefined) then
       if negb (isArray (prop config "dataSource"))
       then Ok (push errors "dataSource" "数据源配置必须是数组" "INVALID_TYPE")
       else arr ← array_elements (prop config "dataSource");
            forEach (λ index ds errors,
                       dsErrors ← validateDataSourceConfig ds
                                    ("dataSource[" +:+ pretty index +:+ "]");
                       Ok (errors ++ dsErrors)) 0 arr errors
     else Ok errors)
    = Ok (errors ++ page_dataSource_errors config)) as ->.
  { intros errors. unfold page_dataSource_errors.
    destruct (prop config "dataSource"); simpl; try done.
    - by rewrite app_nil_r.
    - apply (forEach_appending_concat
               (λ index ds, validateDataSourceConfig ds
                              ("dataSource[" +:+ pretty index +:+ "]"))).
      intros. apply validateDataSourceConfig_total. }
  simpl. by rewrite <- app_assoc.
Qed.

(** X3. The report of [validatePageConfig] on an object is, in this order,
    the errors on [pageCode] and [title], then the errors of every component
    at its indexed path, then the errors of every data source: nothing is
    dropped and no check is skipped because an earlier one failed.  On
    anything else the report is the single [INVALID_CONFIG] error. *)
Theorem validatePageConfig_accumulates_in_order (config : JsValue) :
  ∃ report,
    validatePageConfig config = Ok report
    ∧ vr_errors report
      = if negb (truthy config) || negb (typeof config =? "object")
        then [mkValidationError "" "配置必须是一个对象" "INVALID_CONFIG"]
        else page_header_errors config ++ page_components_errors config
             ++ page_dataSource_errors config.
Proof.
  destruct (negb (truthy config) || negb (typeof config =? "object")) eqn:Hguard.
  - destruct (validatePageConfig_report_shape config)
      as [[_ Hreport]|[Hfalse _]]; [|congruence].
    by exists invalid_config_report.
  - apply guard_object in Hguard as Hobject.
    assert (truthy config = true ∧ typeof config = "object") as [Htruthy Htype]
      by (by destruct Hobject as [[? [? ->]]|[? [? ->]]]).
    rewrite validatePageConfig_object_eq by done. by eexists.
Qed.

Lemma nonempty_string_field v :
  negb (truthy v) || negb (typeof v =? "string") = false ↔ ∃ s, v = JStr s ∧ s ≠ "".
Proof.
  split.
  - destruct v as [| |[]|n|s| |]; simpl; try done.
    + by destruct (n =? 0)%Z.
    + intros Hs. exists s. split; [done|]. by intros ->.
  - intros (s & -> & Hs). simpl. apply String.eqb_neq in Hs. by rewrite Hs.
Qed.

Lemma page_header_errors_nil config :
  page_header_errors config = [] ↔
  (∃ pageCode, prop config "pageCode" = JStr pageCode ∧ pageCode ≠ "")
  ∧ (∃ title, prop config "title" = JStr title ∧ title ≠ "").
Proof.
  unfold page_header_errors. rewrite <- !nonempty_string_field.
  destruct (negb (truthy (prop config "pageCode")) || _),
           (negb (truthy (prop config "title")) || _); simpl; split; try done.
  all: by intros [? ?].
Qed.

Lemma concat_imap_nil {A B} (f : nat → A → list B) (l : list A) :
  concat (imap f l) = [] ↔ ∀ k x, l !! k = Some x → f k x = [].
Proof.
  revert f. induction l as [|x l IH]; intros f; simpl.
  { split; [by intros _ k y|done]. }
  split.
  - intros [Hx Hl]%app_eq_nil k y Hk. destruct k as [|k]; simpl in Hk.
    + by injection Hk as <-.
    + by apply (proj1 (IH (f ∘ S)) Hl k y).
  - intros Hall. rewrite (Hall 0 x) by done. simpl.
    apply IH. intros k y Hk. by apply (Hall (S k)).
Qed.

Lemma validatePageConfig_valid_well_formed config report :
  validatePageConfig config = Ok report → vr_valid report = true →
  well_formed_page config.
Proof.
  intros Hreport Hvalid.
  pose proof Hreport
    as (Htruthy & Hnil & (comps & Hcomps & Hall) & Hsources)%validatePageConfig_valid_inv;
    [|done].
  assert (typeof config = "object") as Htype.
  { destruct (validatePageConfig_report_shape config) as [[_ Hbad]|[Hguard _]].
    - rewrite Hbad in Hreport. by injection Hreport as <-.
    - by apply guard_object in Hguard as [[_ [? ->]]|[_ [? ->]]]. }
  rewrite validatePageConfig_object_eq in Hreport by done.
  injection Hreport as <-. simpl in Hnil.
  apply app_eq_nil in Hnil as [Hheader _].
  apply page_header_errors_nil in Hheader as ((pageCode & Hcode & ?) & (title & Htitle & ?)).
  exists pageCode, title, comps. rewrite !get_truthy by done.
  rewrite Hcode, Htitle, Hcomps. repeat split; try done.
  - apply Forall_forall. intros x Hx. destruct (Hall x Hx) as [path Hpath].
    by eapply validateComponentConfig_nil_well_formed.
  - destruct Hsources as [->|(sources & -> & Hds)]; [by left|].
    right. exists sources. split; [done|].
    apply Forall_forall. intros ds Hin. destruct (Hds ds Hin) as [path Hpath].
    by eapply validateDataSourceConfig_nil_well_formed.
Qed.

Lemma well_formed_validatePageConfig config :
  well_formed_page config →
  validatePageConfig config = Ok (mkValidationResult true []).
Proof.
  intros (pageCode & title & comps & Hcode & ? & Htitle & ? & Hcomps & Hall & Hsources).
  assert (truthy config = true ∧ typeof config = "object") as [Htruthy Htype]
    by (by destruct config).
  rewrite validatePageConfig_object_eq by done.
  rewrite !get_truthy in * by done.
  injection Hcode as Hcode. injection Htitle as Htitle. injection Hcomps as Hcomps.
  assert (page_header_errors config = []) as ->
    by (apply page_header_errors_nil; rewrite Hcode, Htitle; split; eauto).
  assert (page_components_errors config = []) as ->.
  { unfold page_components_errors. rewrite Hcomps. apply concat_imap_nil.
    intros k x Hk. rewrite well_formed_validateComponentConfig; [done|].
    rewrite Forall_forall in Hall. by eapply Hall, list_elem_of_lookup_2. }
  assert (page_dataSource_errors config = []) as ->; [|done].
  unfold page_dataSource_errors.
  destruct Hsources as [[= ->]|(sources & [= ->] & Hds)]; [done|].
  apply concat_imap_nil. intros k ds Hk.
  rewrite well_formed_validateDataSourceConfig; [done|].
  rewrite Forall_forall in Hds. by eapply Hds, list_elem_of_lookup_2.
Qed.

(** X4. [validatePageConfig] reports [valid] exactly on the well-formed
    pages: objects with non-empty string [pageCode] and [title], an array of
    well-formed components (the empty array included) and, when present, an
    array of well-formed data sources. *)
Theorem validatePageConfig_valid_iff (config : JsValue) :
  (∃ report, validatePageConfig config = Ok report ∧ vr_valid report = true)
  ↔ well_formed_page config.
Proof.
  split.
  - intros (report & Hreport & Hvalid).
    by eapply validatePageConfig_valid_well_formed.
  - intros Hwf%well_formed_validatePageConfig. by eexists.
Qed.

(** ** Errors move with the path *)

Lemma own_errors_relocate config prefix path :
  own_errors config (prefix +:+ path) = map (relocate prefix) (own_errors config path).
Proof.
  unfold own_errors, push, relocate.
  destruct (negb (truthy (prop config "id")) || _),
           (negb (truthy (prop config "type")) || _),
           (negb (set_has componentTypeSet (prop config "type"))),
           (negb (strict_eq (prop config "props") JUndefined) && _);
    simpl; by rewrite ?append_assoc.
Qed.

Lemma forEach_appending_map (g : ValidationError → ValidationError) f f0 arr :
  (∀ k x, x ∈ arr → f k x = map g <$> f0 k x) →
  ∀ i errors,
    forEach (appending f) i arr (map g errors)
    = map g <$> forEach (appending f0) i arr errors.
Proof.
  induction arr as [|x arr IH]; intros Hf i errors; simpl; [done|].
  change (appending f i x (map g errors))
    with (f i x ≫= λ found, Ok (map g errors ++ found)).
  change (appending f0 i x errors) with (f0 i x ≫= λ found, Ok (errors ++ found)).
  rewrite Hf by left.
  destruct (f0 i x) as [es| |]; simpl; [|done..].
  rewrite <- map_app. apply IH. intros. apply Hf. by right.
Qed.

(** X5. Validating a component below a longer path changes nothing but the
    paths: the errors found at [prefix ++ path] are the errors found at
    [path], each relocated below [prefix], in the same order and with the
    same codes and messages. *)
Theorem validateComponentConfig_relocates (config : JsValue) (prefix path : string) :
  validateComponentConfig config (prefix +:+ path)
  = map (relocate prefix) <$> validateComponentConfig config path.
Proof.
  revert path. induction config as [config IH] using depth_ind. intros path.
  destruct (negb (truthy config) || negb (typeof config =? "object")) eqn:Hguard.
  - rewrite !validateComponentConfig_unfold. unfold validateComponentConfig_body.
    by rewrite Hguard.
  - assert (truthy config = true ∧ typeof config = "object") as [Htruthy Htype]
      by (apply guard_object in Hguard as [[? [? ->]]|[? [? ->]]]; done).
    rewrite !validateComponentConfig_object_eq by done.
    rewrite own_errors_relocate.
    destruct (prop config "children") as [| | | | |items|] eqn:Hchildren; simpl;
      try (unfold push; by rewrite map_app, append_assoc).
    + done.
    + apply forEach_appending_map. intros k x Hx. rewrite !append_assoc.
      apply IH.
      assert (get config "children" = Ok (JArr items)) as Hget
        by (by rewrite get_truthy, Hchildren).
      apply depth_elem in Hx. apply depth_get_array in Hget. lia.
Qed.

Example validateComponentConfig_relocates_sample :
  validateComponentConfig (JObj [("id", JNum 1); ("children", JArr [JNull])])
    "components[3]"
  = Ok [mkValidationError "components[3].id" "组件ID是必填的字符串" "REQUIRED_FIELD";
        mkValidationError "components[3].type" "组件类型是必填的字符串" "REQUIRED_FIELD";
        mkValidationError "components[3].children[0]" "组件配置必须是对象"
          "INVALID_CONFIG"].
Proof. vm_compute. reflexivity. Qed.

(** ** Nodes by position *)

(** Related trees have nodes at the same positions, and the nodes at a
    position are related. *)
Lemma tree_related_at P comps parseds :
  Forall2 (tree_related P) comps parseds →
  ∀ position,
    match config_at comps position, node_at parseds position with
    | Some config, Some parsed => P config parsed
    | None, None => True
    | _, _ => False
    end.
Proof.
  intros Hall position. revert comps parseds Hall.
  induction position as [|i rest IH]; intros comps parseds Hall; simpl; [done|].
  destruct (comps !! i) as [config|] eqn:Hconfig; simpl.
  - destruct (Forall2_lookup_l _ _ _ _ _ Hall Hconfig) as (parsed & -> & Hrel). simpl.
    destruct rest as [|j rest]; [by destruct Hrel|].
    destruct Hrel as [config parsed _ -> ->|config parsed configs parseds' _ -> -> Hsub].
    + done.
    + apply (IH configs parseds' Hsub).
  - destruct (parseds !! i) as [parsed|] eqn:Hparsed; simpl; [|done].
    destruct (Forall2_lookup_r _ _ _ _ _ Hall Hparsed) as (config & Hc & _).
    congruence.
Qed.

(** Both sides of [parsePageConfig] on a valid config, by position. *)
Lemma parsePageConfig_at P userPermissions config report :
  (∀ node children, truthy node = true →
     P node (parsed_node (list_to_set userPermissions) node children)) →
  validatePageConfig config = Ok report → vr_valid report = true →
  ∃ page comps,
    parsePageConfig config userPermissions = Ok page
    ∧ get config "components" = Ok (JArr comps)
    ∧ ∀ position,
        match config_at comps position, node_at (pp_components page) position with
        | Some node, Some parsedNode => P node parsedNode
        | None, None => True
        | _, _ => False
        end.
Proof.
  intros HP Hreport Hvalid.
  destruct (parsePageConfig_valid _ _ HP _ _ Hreport Hvalid)
    as (comps & parseds & sources & Hcomps & Hrelated & _ & _ & Hparse).
  apply validatePageConfig_valid_inv in Hreport as (Htruthy & _); [|done].
  eexists _, comps. split; [done|]. split; [by rewrite get_truthy, Hcomps|].
  simpl. by apply tree_related_at.
Qed.

Lemma set_has_mono (small large : gset string) v :
  small ⊆ large → set_has small v = true → set_has large v = true.
Proof.
  destruct v; simpl; try done. rewrite !bool_decide_eq_true. set_solver.
Qed.

(** X6. Granting more permissions never hides a component: on a valid
    config, a node that is visible when parsed with some permissions is
    still visible, at the same position and with the same id, when parsed
    with a permission list that contains them all. *)
Theorem parsePageConfig_visibility_monotone
    (config : JsValue) (fewer more : list string) (report : ValidationResult) :
  validatePageConfig config = Ok report →
  vr_valid report = true →
  (∀ permission, permission ∈ fewer → permission ∈ more) →
  ∃ page1 page2,
    parsePageConfig config fewer = Ok page1
    ∧ parsePageConfig config more = Ok page2
    ∧ ∀ position node1,
        node_at (pp_components page1) position = Some node1 →
        pc_visible node1 = true →
        ∃ node2, node_at (pp_components page2) position = Some node2
                 ∧ pc_id node2 = pc_id node1
                 ∧ pc_visible node2 = true.
Proof.
  intros Hreport Hvalid Hsub.
  pose (own perms (node : JsValue) (parsed : ParsedComponent) :=
          pc_id parsed = prop node "id"
          ∧ pc_visible parsed = checked_visible (list_to_set perms) node).
  destruct (parsePageConfig_at (own fewer) fewer config report)
    as (page1 & comps & Hpage1 & Hcomps & Hat1); [done..|].
  destruct (parsePageConfig_at (own more) more config report)
    as (page2 & comps' & Hpage2 & Hcomps' & Hat2); [done..|].
  assert (comps' = comps) as -> by congruence.
  exists page1, page2. split; [done|]. split; [done|].
  intros position node1 Hnode1 Hvisible.
  specialize (Hat1 position). specialize (Hat2 position). rewrite Hnode1 in Hat1.
  destruct (config_at comps position) as [node|]; [|done].
  destruct (node_at (pp_components page2) position) as [node2|]; [|done].
  destruct Hat1 as [Hid1 Hv1], Hat2 as [Hid2 Hv2].
  exists node2. split; [done|]. split; [congruence|].
  rewrite Hv2. rewrite Hv1 in Hvisible. unfold checked_visible in *.
  destruct (truthy (prop node "permission")); simpl in *; [|done].
  destruct (set_has (list_to_set fewer) (prop node "permission")) eqn:Hhas;
    simpl in *; [|done].
  rewrite (set_has_mono (list_to_set fewer) (list_to_set more)); [done| |done].
  intros x. rewrite !elem_of_list_to_set. apply Hsub.
Qed.

Lemma parsePageConfig_visibility_monotone_witness :
  ∃ page1 page2,
    parsePageConfig nested_page ["view"] = Ok page1
    ∧ parsePageConfig nested_page ["admin"; "view"] = Ok page2
    ∧ ∀ position node1,
        node_at (pp_components page1) position = Some node1 →
        pc_visible node1 = true →
        ∃ node2, node_at (pp_components page2) position = Some node2
                 ∧ pc_id node2 = pc_id node1
                 ∧ pc_visible node2 = true.
Proof.
  apply (parsePageConfig_visibility_monotone nested_page ["view"] ["admin"; "view"]
           (mkValidationResult true [])); [vm_compute; reflexivity..|].
  intros permission Hin. apply elem_of_cons. by right.
Defined.

(** X7. Only the literal [false] hides a node that declares no permission:
    on a valid config, such a node is parsed invisible exactly when its
    [visible] field is the boolean [false]; a string (a binding expression,
    even ["false"] or [""]), [0] or [null] in that field leaves it visible. *)
Theorem parsePageConfig_only_false_hides
    (config : JsValue) (userPermissions : list string) (report : ValidationResult) :
  validatePageConfig config = Ok report →
  vr_valid report = true →
  ∃ page comps,
    parsePageConfig config userPermissions = Ok page
    ∧ get config "components" = Ok (JArr comps)
    ∧ ∀ position node parsed,
        config_at comps position = Some node →
        node_at (pp_components page) position = Some parsed →
        get node "permission" = Ok JUndefined →
        (pc_visible parsed = false ↔ get node "visible" = Ok (JBool false)).
Proof.
  intros Hreport Hvalid.
  pose (own (node : JsValue) (parsed : ParsedComponent) :=
          truthy node = true
          ∧ pc_visible parsed = checked_visible (list_to_set userPermissions) node).
  destruct (parsePageConfig_at own userPermissions config report)
    as (page & comps & Hpage & Hcomps & Hat); [done..|].
  exists page, comps. split; [done|]. split; [done|].
  intros position node parsed Hnode Hparsed.
  specialize (Hat position). rewrite Hnode, Hparsed in Hat.
  destruct Hat as [Htruthy ->]. rewrite !get_truthy by done.
  intros [= Hpermission]. unfold checked_visible. rewrite Hpermission. simpl.
  destruct (prop node "visible") as [| |[]| | | |]; simpl; split; try done.
  all: by intros [=].
Qed.

Lemma parsePageConfig_only_false_hides_witness :
  ∃ page comps,
    parsePageConfig string_visible_page [] = Ok page
    ∧ get string_visible_page "components" = Ok (JArr comps)
    ∧ ∀ position node parsed,
        config_at comps position = Some node →
        node_at (pp_components page) position = Some parsed →
        get node "permission" = Ok JUndefined →
        (pc_visible parsed = false ↔ get node "visible" = Ok (JBool false)).
Proof.
  apply (parsePageConfig_only_false_hides string_visible_page []
           (mkValidationResult true [])); vm_compute; reflexivity.
Defined.

Example string_visible_sample :
  (page ← parsePageConfig string_visible_page []; Ok (pc_visible <$> pp_components page))
  = Ok [true; false].
Proof. vm_compute. reflexivity. Qed.

Lemma lookup_initial_is_Some sources : ∀ (m : gmap string JsValue) id,
  is_Some (foldl (λ m ds, <[source_key ds := initial_value ds]> m) m sources !! id)
  ↔ is_Some (m !! id) ∨ ∃ ds, ds ∈ sources ∧ source_key ds = id.
Proof.
  induction sources as [|d sources IH]; intros m id; simpl.
  { split; [by left|]. intros [?|(ds & ?%not_elem_of_nil & _)]; done. }
  rewrite IH, lookup_insert_is_Some. split.
  - intros [[Hd|[_ ?]]|(ds & Hin & Hkey)].
    + right. exists d. split; [left|done].
    + by left.
    + right. exists ds. split; [by right|done].
  - intros [?|(ds & [->|Hin]%elem_of_cons & Hkey)].
    + left. destruct (decide (source_key d = id)); [by left|by right].
    + left. by left.
    + right. by exists ds.
Qed.

(** X8. On a valid config the parsed page carries the config's [pageCode]
    and [title], and the keys of its [dataSources] map are exactly the ids of
    the config's data sources: every source gets an entry, nothing else
    does. *)
Theorem parsePageConfig_header_and_source_ids
    (config : JsValue) (userPermissions : list string) (report : ValidationResult) :
  validatePageConfig config = Ok report →
  vr_valid report = true →
  ∃ page,
    parsePageConfig config userPermissions = Ok page
    ∧ get config "pageCode" = Ok (pp_pageCode page)
    ∧ get config "title" = Ok (pp_title page)
    ∧ ∀ id,
        is_Some (pp_dataSources page !! id)
        ↔ ∃ sources ds,
            get config "dataSource" = Ok (JArr sources)
            ∧ ds ∈ sources ∧ get ds "id" = Ok (JStr id).
Proof.
  intros Hreport Hvalid.
  destruct (parsePageConfig_valid (λ _ _, True) userPermissions
              (λ _ _ _, I) _ _ Hreport Hvalid)
    as (comps & parseds & sources & _ & _ & Hsrc & Hall & Hparse).
  apply validatePageConfig_valid_inv in Hreport as (Htruthy & _); [|done].
  eexists. split; [done|]. simpl. rewrite !get_truthy by done.
  split; [done|]. split; [done|]. intros id.
  unfold initial_dataSources. rewrite lookup_initial_is_Some, lookup_empty. split.
  - intros [[? [=]]|(ds & Hin & Hkey)].
    destruct Hsrc as [[_ ->]|Hsome]; [by apply not_elem_of_nil in Hin|].
    exists sources, ds. rewrite Hsome. split; [done|]. split; [done|].
    destruct (Hall ds Hin) as [path Hpath]. by apply (source_key_valid _ _ _ Hpath).
  - intros (sources' & ds & [= Hsources] & Hin & Hid). right.
    assert (sources' = sources) as ->
      by (destruct Hsrc as [[Hnone _]|Hsome]; congruence).
    exists ds. split; [done|].
    destruct (Hall ds Hin) as [path Hpath]. by apply (source_key_valid _ _ _ Hpath).
Qed.

Lemma parsePageConfig_header_and_source_ids_witness :
  ∃ page,
    parsePageConfig sources_page [] = Ok page
    ∧ get sources_page "pageCode" = Ok (pp_pageCode page)
    ∧ get sources_page "title" = Ok (pp_title page)
    ∧ ∀ id,
        is_Some (pp_dataSources page !! id)
        ↔ ∃ sources ds,
            get sources_page "dataSource" = Ok (JArr sources)
            ∧ ds ∈ sources ∧ get ds "id" = Ok (JStr id).
Proof.
  apply (parsePageConfig_header_and_source_ids sources_page []
           (mkValidationResult true [])); vm_compute; reflexivity.
Defined.

(** ** Resolving bindings against a context *)

Lemma split_dot_dot_free s : dot_free s = true → split_dot s = [s].
Proof.
  induction s as [|c s IH]; simpl; [done|].
  destruct (Ascii.eqb c _); simpl; [done|]. intros Hs. by rewrite IH.
Qed.

Lemma split_dot_append a b :
  split_dot (a +:+ String (Ascii.ascii_of_nat 46) b) = split_dot a ++ split_dot b.
Proof.
  induction a as [|c a IH].
  - change (split_dot (String (Ascii.ascii_of_nat 46) b) = [""] ++ split_dot b).
    done.
  - change (split_dot (String c (a +:+ String (Ascii.ascii_of_nat 46) b))
            = split_dot (String c a) ++ split_dot b).
    simpl. rewrite IH.
    destruct (Ascii.eqb c _); [done|].
    pose proof (split_dot_nonempty a). by destruct (split_dot a).
Qed.

Lemma resolve_parts_app context first second : ∀ value,
  resolve_parts context (first ++ second) value
  = cursor ← resolve_parts context first value; resolve_parts context second cursor.
Proof.
  induction first as [|part rest IH]; intros value; [done|].
  rewrite <- app_comm_cons.
  destruct (resolve_parts_step context value part (rest ++ second))
    as [(next & Hsegment & ->)|[Hsegment ->]];
    destruct (resolve_parts_step context value part rest)
      as [(next' & Hsegment' & ->)|[Hsegment' ->]]; simplify_eq; [apply IH|].
  simpl. by rewrite resolve_parts_undefined.
Qed.

(** X9. A dotted expression resolves left to right: resolving
    [a ++ "." ++ b] is resolving [a] and then following the segments of [b]
    from the value reached. *)
Theorem resolveBinding_composes (a b : string) (context : DataContext) :
  resolveBinding (a +:+ "." +:+ b) context
  = cursor ← resolveBinding a context; resolve_parts context (split_dot b) cursor.
Proof.
  unfold resolveBinding. simpl.
  change ("." +:+ b) with (String (Ascii.ascii_of_nat 46) b).
  by rewrite split_dot_append, resolve_parts_app.
Qed.

Lemma resolveBinding_dataSources_key key context :
  dot_free key = true →
  resolveBinding ("dataSources." +:+ key) context
  = Ok (plain_object_property (dataSources context !! key) key).
Proof.
  intros Hkey. unfold resolveBinding.
  change ("dataSources." +:+ key)
    with ("dataSources" +:+ String (Ascii.ascii_of_nat 46) key).
  rewrite split_dot_append, (split_dot_dot_free key) by done. simpl.
  unfold find_property.
  rewrite (own_property_fromEntries (dataSources context) key).
  by destruct (dataSources context !! key).
Qed.

Lemma plain_object_property_ordinary (own : option JsValue) key :
  key ≠ "__proto__" → key ∉ OBJECT_PROTOTYPE_METHODS →
  plain_object_property own key = AtValue (default JUndefined own).
Proof.
  intros Hproto Hmethod. destruct own as [v|]; [done|].
  unfold plain_object_property, object_prototype_property.
  apply String.eqb_neq in Hproto. rewrite Hproto.
  by rewrite bool_decide_eq_false_2.
Qed.

(** X10. The three namespaces of a context.  For a key without a dot,
    ["dataSources." ++ key] resolves to the entry of the data-source map
    under [key], and ["formData." ++ key] and ["params." ++ key] resolve to
    the property [key] of the form data and of the page parameters.  Where
    there is no such entry or own property, the key reads as on any plain
    object: [__proto__] and the method names of [Object.prototype] resolve
    to what is inherited, every other key to [undefined]. *)
Theorem resolveBinding_namespaces
    (key : string) (context : DataContext) (form pageParams : list (string * JsValue)) :
  dot_free key = true →
  formData context = JObj form →
  params context = JObj pageParams →
  resolveBinding ("dataSources." +:+ key) context
  = Ok (plain_object_property (dataSources context !! key) key)
  ∧ resolveBinding ("formData." +:+ key) context
    = Ok (plain_object_property (own_field form key) key)
  ∧ resolveBinding ("params." +:+ key) context
    = Ok (plain_object_property (own_field pageParams key) key)
  ∧ (key ≠ "__proto__" → key ∉ OBJECT_PROTOTYPE_METHODS →
     ∀ own, plain_object_property own key = AtValue (default JUndefined own)).
Proof.
  intros Hkey Hform Hparams. split; [by apply resolveBinding_dataSources_key|].
  unfold resolveBinding. split; [|split].
  - change ("formData." +:+ key)
      with ("formData" +:+ String (Ascii.ascii_of_nat 46) key).
    rewrite split_dot_append, (split_dot_dot_free key) by done. simpl.
    unfold context_property. simpl. rewrite Hform. simpl.
    unfold find_property. simpl. by destruct (own_field form key).
  - change ("params." +:+ key)
      with ("params" +:+ String (Ascii.ascii_of_nat 46) key).
    rewrite split_dot_append, (split_dot_dot_free key) by done. simpl.
    unfold context_property. simpl. rewrite Hparams. simpl.
    unfold find_property. simpl. by destruct (own_field pageParams key).
  - intros Hproto Hmethod own. by apply plain_object_property_ordinary.
Qed.

Lemma resolveBinding_namespaces_witness :
  resolveBinding ("dataSources." +:+ "constructor") namespaces_context
  = Ok (plain_object_property (dataSources namespaces_context !! "constructor")
          "constructor")
  ∧ resolveBinding ("formData." +:+ "constructor") namespaces_context
    = Ok (plain_object_property
            (own_field [("constructor", JStr "own"); ("qty", JNum 0)] "constructor")
            "constructor")
  ∧ resolveBinding ("params." +:+ "constructor") namespaces_context
    = Ok (plain_object_property (own_field [] "constructor") "constructor").
Proof.
  destruct (resolveBinding_namespaces "constructor" namespaces_context
              [("constructor", JStr "own"); ("qty", JNum 0)] [] eq_refl eq_refl eq_refl)
    as (Hsources & Hform & Hparams & _).
  by repeat split.
Defined.

Example resolveBinding_namespaces_sample :
  resolveBinding "dataSources.constructor" namespaces_context
  = Ok (AtValue (JArr []))
  ∧ resolveBinding "formData.constructor" namespaces_context = Ok (AtValue (JStr "own"))
  ∧ resolveBinding "params.constructor" namespaces_context
    = Ok (AtFunction ObjectPrototype "constructor")
  ∧ resolveBinding "params.__proto__" namespaces_context
    = Ok (AtPrototype ObjectPrototype)
  ∧ resolveBinding "params.qty" namespaces_context = Ok (AtValue JUndefined).
Proof. repeat split; vm_compute; reflexivity. Qed.

(** X11. Parsing and resolving compose: on a valid config, a data source of
    type ['static'] with a ['data'] key, whose id has no dot and is not
    reused by a later source, is readable right after the parse as
    ["dataSources." ++ id] in the context built from the parsed page, and
    the value read is [config.data]. *)
Theorem parsed_static_source_resolves
    (config : JsValue) (userPermissions : list string) (report : ValidationResult)
    (sources : list JsValue) (i : nat) (ds cfg data : JsValue) (id : string)
    (form pageParams : option JsValue) :
  validatePageConfig config = Ok report →
  vr_valid report = true →
  get config "dataSource" = Ok (JArr sources) →
  sources !! i = Some ds →
  get ds "id" = Ok (JStr id) →
  dot_free id = true →
  (∀ j ds', i < j → sources !! j = Some ds' → get ds' "id" ≠ Ok (JStr id)) →
  get ds "type" = Ok (JStr "static") →
  get ds "config" = Ok cfg →
  has_in "data" cfg = Ok true →
  get cfg "data" = Ok data →
  ∃ page,
    parsePageConfig config userPermissions = Ok page
    ∧ resolveBinding ("dataSources." +:+ id)
        (createDataContext (Some (pp_dataSources page)) form pageParams)
      = Ok (AtValue data).
Proof.
  intros Hreport Hvalid Hsources Hi Hid Hdots Hlater Htype Hcfg Hin Hdata.
  destruct (parsePageConfig_dataSource_entry _ userPermissions _ _ _ _ _
              Hreport Hvalid Hsources Hi Hid)
    as (page & Hpage & Hds & Hcfg' & _ & Hentry).
  exists page. split; [done|].
  rewrite resolveBinding_dataSources_key by done. simpl.
  rewrite (Hentry Hlater). simpl. do 2 f_equal.
  rewrite !get_truthy in * by done. injection Hcfg as <-. injection Htype as Htype.
  apply has_in_own_property in Hin. unfold initial_value.
  rewrite Htype, <- Hin. simpl.
  rewrite get_truthy in Hdata by done. by injection Hdata.
Qed.

Lemma parsed_static_source_resolves_witness :
  ∃ page,
    parsePageConfig sources_page [] = Ok page
    ∧ resolveBinding ("dataSources." +:+ "staticData")
        (createDataContext (Some (pp_dataSources page)) None None)
      = Ok (AtValue (JArr [JNum 1; JNum 2; JNum 3])).
Proof.
  eapply (parsed_static_source_resolves sources_page [] (mkValidationResult true [])
            _ 0 _ (JObj [("data", JArr [JNum 1; JNum 2; JNum 3])]));
    try (vm_compute; reflexivity).
  intros [|[|[|j]]] ds' Hj; try lia; simpl; intros [= <-]; by vm_compute.
Defined.

(** ** The renderer *)

Section renderer_facts.
Context {Component : Type}.
Implicit Types (custom : option (list (string * Component)))
               (registry : list (string * Component)).

Lemma renderComponent_None custom registry config :
  renderComponent custom registry config = None ↔ pc_visible config = false.
Proof.
  destruct config as [id type props children visible]. simpl.
  destruct visible; simpl; [|done].
  by destruct (find_component custom registry type).
Qed.

(** X12. [renderPage] renders the visible top-level components and only
    them: its output corresponds one to one, in order, to the
    [renderedComponents] of the page, each entry being the rendering of its
    component, whatever the registry holds. *)
Theorem renderPage_renders_visible custom registry (page : ParsedPage) :
  Forall2 (λ comp vnode, renderComponent custom registry comp = Some vnode)
    (renderedComponents (Some page)) (renderPage custom registry page).
Proof.
  unfold renderPage, renderedComponents.
  induction (pp_components page) as [|comp comps IH]; simpl; [constructor|].
  destruct (renderComponent custom registry comp) as [vnode|] eqn:Hrender.
  - rewrite filter_cons_True; [by constructor|].
    destruct (pc_visible comp) eqn:Hvisible; [done|].
    apply (renderComponent_None custom registry) in Hvisible. congruence.
  - apply renderComponent_None in Hrender.
    rewrite filter_cons_False; [done|]. by rewrite Hrender.
Qed.

End renderer_facts.

(** X13. Nothing is shown without its permission: on a valid config, every
    component among the [renderedComponents] of the parsed page is a
    top-level component of the config, under its own id, whose [visible]
    field is not [false] and whose declared (non-empty string) permission is
    one the user holds. *)
Theorem renderedComponents_are_permitted
    (config : JsValue) (userPermissions : list string) (report : ValidationResult) :
  validatePageConfig config = Ok report →
  vr_valid report = true →
  ∃ page comps,
    parsePageConfig config userPermissions = Ok page
    ∧ get config "components" = Ok (JArr comps)
    ∧ ∀ parsed,
        parsed ∈ renderedComponents (Some page) →
        ∃ i node,
          comps !! i = Some node
          ∧ pp_components page !! i = Some parsed
          ∧ get node "id" = Ok (pc_id parsed)
          ∧ get node "visible" ≠ Ok (JBool false)
          ∧ ∀ required,
              get node "permission" = Ok (JStr required) → required ≠ "" →
              required ∈ userPermissions.
Proof.
  intros Hreport Hvalid.
  pose (own (node : JsValue) (parsed : ParsedComponent) :=
          truthy node = true
          ∧ pc_id parsed = prop node "id"
          ∧ pc_visible parsed = checked_visible (list_to_set userPermissions) node).
  destruct (parsePageConfig_valid own userPermissions) with (config := config)
      (report := report)
    as (comps & parseds & sources & Hcomps & Hrelated & _ & _ & Hparse); [done..|].
  apply validatePageConfig_valid_inv in Hreport as (Htruthy & _); [|done].
  eexists _, comps. split; [done|]. split; [by rewrite get_truthy, Hcomps|].
  simpl. intros parsed [Hvisible Hin]%list_elem_of_filter.
  apply list_elem_of_lookup_1 in Hin as [i Hi].
  destruct (Forall2_lookup_r _ _ _ _ _ Hrelated Hi) as (node & Hnode & Hrel).
  assert (own node parsed) as (Hobject & Hid & Hcheck) by (by destruct Hrel).
  exists i, node. rewrite !get_truthy by done.
  split; [done|]. split; [done|]. split; [by rewrite Hid|].
  rewrite Hcheck in Hvisible. unfold checked_visible in Hvisible.
  destruct (truthy (prop node "permission")
            && negb (set_has (list_to_set userPermissions) (prop node "permission")))
    eqn:Hdenied; [done|].
  split.
  - intros [= Hfalse]. by rewrite Hfalse in Hvisible.
  - intros required [= Hrequired] Hnonempty. rewrite Hrequired in Hdenied.
    simpl in Hdenied. apply String.eqb_neq in Hnonempty. rewrite Hnonempty in Hdenied.
    simpl in Hdenied. apply negb_false_iff, bool_decide_eq_true in Hdenied.
    by apply elem_of_list_to_set in Hdenied.
Qed.

Lemma renderedComponents_are_permitted_witness :
  ∃ page comps,
    parsePageConfig nested_page ["view"] = Ok page
    ∧ get nested_page "components" = Ok (JArr comps)
    ∧ ∀ parsed,
        parsed ∈ renderedComponents (Some page) →
        ∃ i node,
          comps !! i = Some node
          ∧ pp_components page !! i = Some parsed
          ∧ get node "id" = Ok (pc_id parsed)
          ∧ get node "visible" ≠ Ok (JBool false)
          ∧ ∀ required,
              get node "permission" = Ok (JStr required) → required ≠ "" →
              required ∈ ["view"].
Proof.
  apply (renderedComponents_are_permitted nested_page ["view"]
           (mkValidationResult true [])); vm_compute; reflexivity.
Defined.

(** Induction over a parsed tree. *)
Lemma ParsedComponent_tree_ind (P : ParsedComponent → Prop) :
  (∀ id type props children visible,
     match children with Some nodes => Forall P nodes | None => True end →
     P (mkParsedComponent id type props children visible)) →
  ∀ node, P node.
Proof.
  intros step. fix IH 1. intros [id type props children visible].
  apply step. destruct children as [nodes|]; [|done].
  induction nodes as [|node nodes IHnodes]; constructor; [apply IH|apply IHnodes].
Qed.

Section render_counts.
Context {Component : Type}.
Implicit Types (custom : option (list (string * Component)))
               (registry : list (string * Component)).

Lemma render_count_nodes custom registry (nodes : list ParsedComponent) :
  Forall (λ node, ∀ vnode, renderComponent custom registry node = Some vnode →
                           (vnode_count vnode ≤ shown_count node)%nat) nodes →
  (sum_list (map vnode_count (omap (renderComponent custom registry) nodes))
   ≤ sum_list (map shown_count nodes))%nat.
Proof.
  induction 1 as [|node nodes Hnode _ IH]; simpl; [done|].
  destruct (renderComponent custom registry node) as [vnode|] eqn:Hrender; simpl.
  - specialize (Hnode vnode eq_refl).
    apply Nat.add_le_mono; [exact Hnode|exact IH].
  - etrans; [exact IH|]. lia.
Qed.

Lemma renderComponent_count custom registry node :
  ∀ vnode, renderComponent custom registry node = Some vnode →
           (vnode_count vnode ≤ shown_count node)%nat.
Proof.
  induction node as [id type props children visible IH] using ParsedComponent_tree_ind.
  intros vnode. simpl. destruct visible; simpl; [|done].
  destruct (find_component custom registry type); intros [= <-]; simpl;
    [|apply le_n_S, Nat.le_0_l].
  destruct children as [nodes|]; [|lia].
  apply render_count_nodes in IH.
  destruct (omap (renderComponent custom registry) nodes) eqn:Hrendered; simpl in *; lia.
Qed.

(** X14. A hidden component hides its subtree: [renderPage] never produces
    more nodes than the parsed tree has nodes that are visible together with
    all their ancestors, whatever the registry holds (an unregistered type
    renders as a single placeholder node). *)
Theorem renderPage_hides_subtrees custom registry (page : ParsedPage) :
  (sum_list (map vnode_count (renderPage custom registry page))
   ≤ sum_list (map shown_count (pp_components page)))%nat.
Proof.
  unfold renderPage. apply render_count_nodes.
  apply Forall_forall. intros node _. apply renderComponent_count.
Qed.

End render_counts.

Example renderPage_hidden_parent :
  (page ← parsePageConfig nested_page ["admin"; "view"];
   Ok (renderPage None [("MContainer", 1); ("MButton", 2); ("MInput", 3)] page,
       sum_list (map shown_count (pp_components page))))
  = Ok ([], 0).
Proof. vm_compute. reflexivity. Qed.

Example renderPage_placeholder :
  (page ← parsePageConfig bound_page [];
   Ok (renderPage (Some [("MInput", 7)]) [("MInput", 3); ("MText", 4)] page))
  = Ok [VElement "div" [("class", JStr "component-not-found")] "[MContainer]";
        VComponent 7 [] None].
Proof. vm_compute. reflexivity. Qed.

(** ** The component registry of the renderer *)

Section registry_facts.
Context {Component : Type}.
Implicit Types (registry : list (string * Component)).

Lemma registry_get_set registry name component other :
  registry_get (registry_set registry name component) other
  = if name =? other then Some component else registry_get registry other.
Proof.
  induction registry as [|[key old] registry IH]; simpl.
  - by destruct (name =? other).
  - destruct (key =? name) eqn:Hkey; simpl.
    + apply String.eqb_eq in Hkey as ->. by destruct (name =? other).
    + rewrite IH. destruct (name =? other) eqn:Hother; [|done].
      apply String.eqb_eq in Hother as <-. by rewrite Hkey.
Qed.

Lemma registry_get_elem registry name :
  is_Some (registry_get registry name) ↔ name ∈ registry.*1.
Proof.
  induction registry as [|[key old] registry IH]; simpl.
  - split; [by intros [? ?]|by intros ?%not_elem_of_nil].
  - rewrite elem_of_cons. destruct (key =? name) eqn:Hkey.
    + apply String.eqb_eq in Hkey as ->. split; [by left|eauto].
    + apply String.eqb_neq in Hkey. rewrite IH. split; [by right|].
      by intros [->|?].
Qed.

Lemma registry_set_names registry name component :
  (registry_set registry name component).*1
  = if bool_decide (is_Some (registry_get registry name))
    then registry.*1 else registry.*1 ++ [name].
Proof.
  induction registry as [|[key old] registry IH]; [done|].
  cbn [registry_set registry_get]. destruct (key =? name) eqn:Hkey.
  - by rewrite bool_decide_eq_true_2 by eauto.
  - rewrite fmap_cons, IH. by destruct (bool_decide _).
Qed.

Lemma registry_get_registerComponents components : ∀ registry name,
  registry_get (registerComponents components registry) name
  = match registry_get (reverse components) name with
    | Some component => Some component
    | None => registry_get registry name
    end.
Proof.
  unfold registerComponents.
  induction components as [|[key component] components IH] using rev_ind;
    intros registry name; [done|].
  rewrite foldl_app, reverse_app. simpl. rewrite registry_get_set.
  destruct (key =? name); [done|]. apply IH.
Qed.

(** X15. After [registerComponents], [getComponent] returns for each name
    the component of the last entry registered under it, and what was
    registered before for a name the batch does not mention; [hasComponent]
    agrees with [getComponent]. *)
Theorem registerComponents_last_wins
    (components : list (string * Component)) registry (name : string) :
  getComponent name (registerComponents components registry)
  = match registry_get (reverse components) name with
    | Some component => Some component
    | None => getComponent name registry
    end
  ∧ hasComponent name (registerComponents components registry)
    = bool_decide (name ∈ components.*1) || hasComponent name registry.
Proof.
  unfold getComponent, hasComponent.
  rewrite registry_get_registerComponents. split; [done|].
  destruct (registry_get (reverse components) name) as [component|] eqn:Hget.
  - assert (name ∈ components.*1) as Hin.
    { rewrite <- elem_of_reverse, <- fmap_reverse. apply registry_get_elem. eauto. }
    rewrite (bool_decide_eq_true_2 (name ∈ components.*1)) by done.
    by rewrite bool_decide_eq_true_2 by eauto.
  - assert (name ∉ components.*1) as Hout.
    { rewrite <- elem_of_reverse, <- fmap_reverse, <- registry_get_elem, Hget.
      by intros [? ?]. }
    by rewrite (bool_decide_eq_false_2 (name ∈ components.*1)).
Qed.

Lemma registry_set_NoDup registry name component :
  NoDup registry.*1 → NoDup (registry_set registry name component).*1.
Proof.
  intros Hnodup. rewrite registry_set_names.
  destruct (bool_decide (is_Some (registry_get registry name))) eqn:Hhas; [done|].
  apply bool_decide_eq_false in Hhas. rewrite registry_get_elem in Hhas.
  apply NoDup_app. split; [done|]. split; [|apply NoDup_singleton].
  intros x Hx ->%list_elem_of_singleton. done.
Qed.

(** X16. [getRegisteredComponents] lists every registered name once, in the
    order of first registration: registering a name that is already there
    leaves the list as it is, registering a new one appends it, and a list
    without repetition stays so. *)
Theorem registerComponent_keeps_order registry (name : string) (component : Component) :
  getRegisteredComponents (registerComponent name component registry)
  = (if hasComponent name registry
     then getRegisteredComponents registry
     else getRegisteredComponents registry ++ [name])
  ∧ (NoDup (getRegisteredComponents registry) →
     NoDup (getRegisteredComponents (registerComponent name component registry)))
  ∧ (hasComponent name registry = true ↔ name ∈ getRegisteredComponents registry).
Proof.
  unfold getRegisteredComponents, registerComponent, hasComponent.
  split; [apply registry_set_names|]. split; [apply registry_set_NoDup|].
  rewrite bool_decide_eq_true. apply registry_get_elem.
Qed.

End registry_facts.

Example registry_sample :
  let registry := registerComponents [("MButton", 1); ("MInput", 2); ("MButton", 3)]
                    (registerComponent "MCard" 0 (clearRegistry [("Old", 9)])) in
  getRegisteredComponents registry = ["MCard"; "MButton"; "MInput"]
  ∧ getComponent "MButton" registry = Some 3
  ∧ hasComponent "Old" registry = false.
Proof. vm_compute. done. Qed.

(** ** Event configurations *)

Example getEventConfigs_sample :
  getEventConfigs events_page
  = Ok [JObj [("type", JStr "navigate")];
        JStr "e3"; JStr "e2"; JStr "e1"; JStr "e5"; JStr "e6"].
Proof. vm_compute. reflexivity. Qed.

Lemma collectEvents_body_local f g components events :
  (∀ x b, depth x < depth components → f x b = g x b) →
  collectEvents_body f components events = collectEvents_body g components events.
Proof.
  intros Hfg. unfold collectEvents_body.
  apply bind_ext; intros arr ->%array_elements_Ok.
  apply forEach_ext. intros i comp st Hcomp.
  apply bind_ext; intros compEvents _. apply bind_ext; intros st' _.
  apply bind_ext; intros children Hchildren.
  destruct (truthy children); [|done]. apply Hfg.
  apply depth_elem in Hcomp. apply depth_get in Hchildren. lia.
Qed.

Lemma collectEvents_unfold components events :
  collectEvents components events
  = collectEvents_body collectEvents components events.
Proof. apply depth_rec_unfold, collectEvents_body_local. Qed.

Lemma forEach_push values : ∀ i (events : list JsValue),
  forEach (λ _ event events, Ok (events ++ [event])) i values events
  = Ok (events ++ values).
Proof.
  induction values as [|x values IH]; intros i events; simpl.
  - by rewrite app_nil_r.
  - rewrite IH. by rewrite <- app_assoc.
Qed.

Lemma collectEvents_spec components :
  ∀ comps nested (events : list JsValue),
    components = JArr comps →
    Forall2 component_events comps nested →
    collectEvents components events = Ok (events ++ concat nested).
Proof.
  induction components as [components IH] using depth_ind.
  intros comps nested events -> Hall.
  rewrite collectEvents_unfold. unfold collectEvents_body. simpl.
  assert (∀ x, x ∈ comps → depth x < depth (JArr comps)) as Hdepth
    by (intros; by apply depth_elem).
  remember (depth (JArr comps)) as bound eqn:Hbound. clear Hbound.
  match goal with |- forEach ?f 0 _ _ = _ => set (body := f) end.
  revert Hdepth. generalize 0 as index. revert events.
  induction Hall as [|comp found rest nested Hcomp Hall IHall];
    intros events index Hdepth; [by rewrite app_nil_r|].
  destruct Hcomp as [comp own children nested' Hown Hchildren Hnested].
  eapply forEach_cons; [|rewrite concat_cons, app_assoc; apply IHall].
  2: { intros x Hx. apply Hdepth. by right. }
  unfold body.
  assert (∀ st, (children' ← get comp "children";
                 if truthy children' then collectEvents children' st else Ok st)
                = Ok (st ++ concat nested')) as Hsubtree.
  { intros st. destruct Hchildren as [Hnone|children Hsome].
    - rewrite Hnone. simpl. inversion Hnested. by rewrite app_nil_r.
    - rewrite Hsome. simpl.
      apply (IH (JArr children)) with (comps := children); [|done..].
      apply depth_get_array in Hsome.
      assert (depth comp < bound) by (apply Hdepth; left).
      lia. }
  rewrite app_assoc.
  destruct Hown as [compEvents Hget Hfalsy|compEvents values Hget Htruthy Hvalues].
  - rewrite Hget. simpl. rewrite Hfalsy, app_nil_r. simpl. apply Hsubtree.
  - rewrite Hget. simpl. rewrite Htruthy, Hvalues. simpl.
    rewrite forEach_push. simpl. apply Hsubtree.
Qed.

(** X17. [getEventConfigs] lists the page-level events first, in array
    order, and then the events of the components depth first: the values of
    a component's [events] object in enumeration order, followed by the
    events of its children in array order. *)
Theorem getEventConfigs_in_traversal_order
    (config : JsValue) (own : list JsValue) (comps : list JsValue)
    (nested : list (list JsValue)) :
  page_events config own →
  get config "components" = Ok (JArr comps) →
  Forall2 component_events comps nested →
  getEventConfigs config = Ok (own ++ concat nested).
Proof.
  intros Hown Hcomps Hall. unfold getEventConfigs.
  destruct Hown as [configEvents Hget Hfalsy|items Hget]; rewrite Hget; simpl.
  - rewrite Hfalsy. simpl. rewrite Hcomps. simpl.
    by apply (collectEvents_spec _ comps nested []).
  - rewrite Hcomps. simpl. by apply (collectEvents_spec _ comps nested items).
Qed.

Lemma getEventConfigs_in_traversal_order_witness :
  getEventConfigs events_page
  = Ok ([JObj [("type", JStr "navigate")]]
        ++ concat [ [JStr "e3"; JStr "e2"; JStr "e1"] ++ concat [ [JStr "e5"] ++ concat [] ];
                    [JStr "e6"] ++ concat [] ]).
Proof.
  eapply getEventConfigs_in_traversal_order.
  - by apply page_events_some.
  - vm_compute. reflexivity.
  - constructor; [|constructor; [|constructor]].
    + eapply component_events_node.
      * by eapply own_events_some.
      * by apply component_children_some.
      * constructor; [|constructor].
        eapply component_events_node; [by eapply own_events_some| |constructor].
        by apply component_children_none.
    + eapply component_events_node; [by eapply own_events_some| |constructor].
      by apply component_children_none.
Defined.

Lemma first_occurrences_NoDup fields : ∀ seen,
  NoDup fields.*1 → (∀ key, key ∈ fields.*1 → key ∉ seen) →
  first_occurrences seen fields = fields.
Proof.
  induction fields as [|[key v] fields IH]; intros seen Hnodup Hseen; simpl; [done|].
  apply NoDup_cons in Hnodup as [Hkey Hnodup].
  rewrite bool_decide_eq_false_2 by (apply Hseen; left).
  f_equal. apply IH; [done|]. intros key' Hin [-> | Hold]%elem_of_cons; [done|].
  by apply (Hseen key'); [right|].
Qed.

(** The values of an object whose keys are distinct and none an array index
    are enumerated as written. *)
Lemma object_values_plain fields :
  NoDup fields.*1 → Forall (λ key, index_key key = None) fields.*1 →
  object_values (JObj fields) = Ok fields.*2.
Proof.
  intros Hnodup Hplain. simpl. f_equal. unfold enumerated_values.
  rewrite first_occurrences_NoDup by (done || by intros ? _ ?%not_elem_of_nil).
  clear Hnodup. induction fields as [|[key v] fields IH]; [done|].
  apply Forall_cons in Hplain as [Hkey Hplain]. specialize (IH Hplain).
  simpl in Hkey. cbn [foldr fst snd]. rewrite Hkey.
  rewrite filter_cons_True by done. rewrite !fmap_cons.
  destruct (foldr _ _ _) as [|? ?] eqn:Hindexed; simpl in *; [by f_equal|].
  exfalso. clear IH. induction fields as [|[key' v'] fields IH]; [done|].
  apply Forall_cons in Hplain as [Hkey' Hplain]. simpl in Hkey', Hindexed.
  rewrite Hkey' in Hindexed. by apply IH.
Qed.

(** ** The collectors on a validated page *)

Lemma bind_no_throw {A B} (m : Outcome A) (f : A → Outcome B) :
  (∀ e, m ≠ Throw e) → (∀ a e, m = Ok a → f a ≠ Throw e) → ∀ e, m ≫= f ≠ Throw e.
Proof. destruct m as [a|e'|]; simpl; intros Hm Hf e; [by apply Hf|by destruct (Hm e')|done]. Qed.

Lemma forEach_no_throw {St} (body : nat → JsValue → St → Outcome St) arr :
  (∀ i x st e, x ∈ arr → body i x st ≠ Throw e) →
  ∀ i st e, forEach body i arr st ≠ Throw e.
Proof.
  induction arr as [|x arr IH]; intros Hbody i st e; simpl; [done|].
  apply bind_no_throw; [intros e'; apply Hbody; left|].
  intros st' e' _. apply IH. intros. apply Hbody. by right.
Qed.

Lemma get_no_throw v key : truthy v = true → ∀ e, get v key ≠ Throw e.
Proof. by destruct v. Qed.

Lemma well_formed_component_truthy comp :
  well_formed_component comp → truthy comp = true.
Proof.
  intros [config id type props Hid Hne _ _ _ _ _].
  by destruct config.
Qed.

Lemma well_formed_component_children comp children :
  well_formed_component comp → get comp "children" = Ok children →
  truthy children = true →
  ∃ items, children = JArr items ∧ Forall well_formed_component items.
Proof.
  intros [config id type props _ _ _ _ _ _ [Hnone|(items & Hsome & Hall)]] Hget Htruthy.
  - rewrite Hnone in Hget. by injection Hget as <-.
  - rewrite Hsome in Hget. injection Hget as <-. eauto.
Qed.

Lemma collectEvents_no_throw components :
  ∀ comps, components = JArr comps → Forall well_formed_component comps →
  ∀ events e, collectEvents components events ≠ Throw e.
Proof.
  induction components as [components IH] using depth_ind.
  intros comps -> Hall events e.
  rewrite collectEvents_unfold. unfold collectEvents_body. simpl.
  apply forEach_no_throw. intros _ comp st e' Hcomp.
  rewrite Forall_forall in Hall. specialize (Hall comp Hcomp).
  pose proof (well_formed_component_truthy _ Hall) as Hobject.
  apply bind_no_throw; [by apply get_no_throw|]. intros compEvents e1 _.
  apply bind_no_throw.
  - destruct (truthy compEvents) eqn:Htruthy; [|done].
    apply bind_no_throw; [by destruct compEvents|]. intros values e2 _.
    by rewrite forEach_push.
  - intros st' e2 _.
    apply bind_no_throw; [by apply get_no_throw|]. intros children e3 Hchildren.
    destruct (truthy children) eqn:Htruthy; [|done].
    destruct (well_formed_component_children _ _ Hall Hchildren Htruthy)
      as (items & -> & Hitems).
    apply (IH (JArr items)) with (comps := items); [|done..].
    apply depth_elem in Hcomp. apply depth_get in Hchildren. lia.
Qed.








Example getDataBindings_loose_sample :
  (bindings ← getDataBindings loose_bindings_page;
   Ok (bindings !! "form", bindings !! "list"))
  = Ok (Some [JStr "name"], Some [JUndefined]).
Proof. vm_compute. reflexivity. Qed.

(** X19. On a page configuration that [validatePageConfig] reports valid,
    [getEventConfigs] throws exactly when the page-level [events] is truthy
    and cannot be spread, and what it throws then is a TypeError; the
    [events] of the components never make it throw. *)
Theorem getEventConfigs_throws_iff
    (config : JsValue) (report : ValidationResult) (e : exn) :
  validatePageConfig config = Ok report → vr_valid report = true →
  getEventConfigs config = Throw e
  ↔ e = TypeError
    ∧ ∃ configEvents,
        get config "events" = Ok configEvents ∧ truthy configEvents = true
        ∧ isArray configEvents = false ∧ typeof configEvents ≠ "string".
Proof.
  intros Hreport Hvalid.
  destruct (validatePageConfig_valid_well_formed _ _ Hreport Hvalid)
    as (pageCode & title & comps & HpageCode & _ & _ & _ & Hcomps & Hall & _).
  assert (∃ configEvents, get config "events" = Ok configEvents) as [configEvents Hget].
  { destruct config; try done; by eexists. }
  pose proof (collectEvents_no_throw _ comps eq_refl Hall) as Hquiet.
  unfold getEventConfigs. rewrite Hget, Hcomps. simpl. split.
  - intros Hthrow. destruct (truthy configEvents) eqn:Htruthy.
    + destruct configEvents as [| |b|n|s|items|fields]; simpl in Hthrow;
        try (by destruct (Hquiet _ _ Hthrow)); try done;
        injection Hthrow as <-; (split; [done|]); eexists; by repeat split.
    + by destruct (Hquiet _ _ Hthrow).
  - intros (-> & configEvents' & Hget' & Htruthy & Harray & Hstring).
    injection Hget' as <-. rewrite Htruthy.
    by destruct configEvents.
Qed.

Lemma getEventConfigs_throws_iff_witness :
  getEventConfigs keyed_events_page = Throw TypeError
  ↔ TypeError = TypeError
    ∧ ∃ configEvents,
        get keyed_events_page "events" = Ok configEvents ∧ truthy configEvents = true
        ∧ isArray configEvents = false ∧ typeof configEvents ≠ "string".
Proof.
  apply (getEventConfigs_throws_iff keyed_events_page (mkValidationResult true []));
    vm_compute; reflexivity.
Defined.

Example getEventConfigs_keyed_events :
  getEventConfigs keyed_events_page = Throw TypeError
  ∧ getEventConfigs events_page ≠ Throw TypeError.
Proof. split; [by vm_compute|]. by vm_compute. Qed.
